(** * lib/aggregator.js: the timing and outcome aggregator

    A shallow embedding of [Aggregator] and [Data] from lib/aggregator.js,
    together with the fragment of JavaScript the file relies on: property
    lookup through the prototype chain of the plain objects it uses as
    dictionaries, object identity of the [Data] records, and exceptions that
    leave the mutations made before them in place. *)

From stdpp Require Import base gmap strings list fin_maps.
From Stdlib Require Import ZArith Lia.

Local Open Scope Z_scope.
Local Open Scope string_scope.
Local Open Scope list_scope.

(** ** The JavaScript fragment *)

(** Numbers.  Every number the file computes is a difference of two [Date]
    time values, which are integers (milliseconds) or [NaN] for an invalid
    date; [-] on an [undefined] operand is [NaN] as well, and the
    conversion of an object a caller supplies yields such a number or
    throws.  The difference
    of two time values is taken over the integers: clock readings are far
    below 2^53 in magnitude, where the arithmetic of JavaScript numbers is
    exact. *)
Inductive number : Type :=
  | Num (z : Z)
  | NaN.

Definition minus (a b : number) : number :=
  match a, b with
  | Num x, Num y => Num (x - y)
  | _, _ => NaN
  end.

(** A [Date] object, by its time value.  [new Date()] reads the clock. *)
Record Date : Type := mkDate { getTime : number }.

Definition new_Date (now : Z) : Date := mkDate (Num now).

(** ToNumber of an operand of [-] that is a [Date] or [undefined]. *)
Definition ToNumber (d : option Date) : number :=
  match d with
  | Some t => getTime t
  | None => NaN
  end.

(** What is thrown: [new Error(message)], a TypeError of the language, or
    anything else, which only code outside this file can throw. *)
Inductive exn : Type :=
  | Error (message : string)
  | TypeError
  | Exception.

Inductive completion (A : Type) : Type :=
  | Return (a : A)
  | Throw (e : exn).
Arguments Return {A} a.
Arguments Throw {A} e.

(** An object that passes [instanceof Date], that is, one with
    [Date.prototype] on its prototype chain.  It is a [Date] object, valid
    or not, or some other object: one made by
    [Object.create(Date.prototype)], or an instance of a subclass of
    [Date] with a conversion of its own.  Of such an object the file only
    ever uses the conversion to a number, in [end - start]: [conversion] is
    what that conversion does, yield a number (of those modelled here) or
    throw (a TypeError for [Object.create(Date.prototype)], from
    [Date.prototype.valueOf]). *)
Inductive DateInstance : Type :=
  | ADate (d : Date)
  | Inherits (conversion : completion number).

(** ToNumber of an operand of [-] that passes [instanceof Date]. *)
Definition DateInstance_ToNumber (i : DateInstance) : completion number :=
  match i with
  | ADate d => Return (getTime d)
  | Inherits conversion => conversion
  end.

(** Values a caller can pass to the methods of a record.  [VDate] is a
    [Date] object, [VInheritsDate] another object that passes [instanceof
    Date], [VObject] any object that does not. *)
Inductive value : Type :=
  | VUndefined
  | VNull
  | VBoolean (b : bool)
  | VNumber (n : number)
  | VString (s : string)
  | VDate (d : Date)
  | VInheritsDate (conversion : completion number)
  | VObject.

Definition ToBoolean (v : value) : bool :=
  match v with
  | VUndefined | VNull => false
  | VBoolean b => b
  | VNumber (Num z) => negb (z =? 0)%Z
  | VNumber NaN => false
  | VString s => negb (String.eqb s "")
  | VDate _ | VInheritsDate _ | VObject => true
  end.

(** [v === s] for a string constant [s]. *)
Definition strict_equals (v : value) (s : string) : bool :=
  match v with
  | VString s' => String.eqb s' s
  | _ => false
  end.

(** [v instanceof Date] *)
Definition instanceof_Date (v : value) : bool :=
  match v with
  | VDate _ | VInheritsDate _ => true
  | _ => false
  end.

(** The object [v] is, when [v instanceof Date] holds. *)
Definition as_DateInstance (v : value) : option DateInstance :=
  match v with
  | VDate d => Some (ADate d)
  | VInheritsDate conversion => Some (Inherits conversion)
  | _ => None
  end.

(** Objects with identity live in a heap; only [Data] records need one. *)
Definition loc : Type := positive.

(** What a property read [o[k]] on one of the dictionaries yields, as far as
    the file can tell the results apart: a [Data] record, [undefined] or
    [null], or anything else (a built-in function, a [Date], an array, a
    string, ...) with its truthiness. *)
Inductive property : Type :=
  | IsData (l : loc)
  | IsNullish
  | IsOther (truthy : bool).

Definition truthy (p : property) : bool :=
  match p with
  | IsData _ => true
  | IsNullish => false
  | IsOther b => b
  end.

Definition property_of_value (v : value) : property :=
  match v with
  | VUndefined | VNull => IsNullish
  | _ => IsOther (ToBoolean v)
  end.

(** The properties of [Object.prototype]; [__proto__] is the accessor. *)
Definition Object_prototype_names : list string :=
  [ "constructor"; "__defineGetter__"; "__defineSetter__"; "hasOwnProperty";
    "__lookupGetter__"; "__lookupSetter__"; "isPrototypeOf";
    "propertyIsEnumerable"; "toString"; "valueOf"; "toLocaleString";
    "__proto__" ].

(** A read that reaches [Object.prototype].  [polluted] tells whether
    [Object.prototype] has been given an [end] property (see [addHookEnd]). *)
Definition Object_prototype_get (polluted : bool) (k : string) : property :=
  if bool_decide (k ∈ Object_prototype_names) then IsOther true
  else if polluted && String.eqb k "end" then IsOther true
  else IsNullish.

(** ** Constants *)

Definition ERROR : string := "error".
Definition SKIP : string := "skip".
Definition SUCCESS : string := "success".

(** ** Data *)

(** A hook entry [{start: ..., end: ...}]; [hook_end] is absent until
    [addHookEnd]. *)
Record Hook : Type := mkHook {
  hook_start : Date;
  hook_end : option Date
}.

(** The object [this.hooks]: own properties keyed by hook uid, and its
    prototype, which the assignment [hooks['__proto__'] = entry] replaces by
    the entry ([None] is the initial [Object.prototype]). *)
Record Hooks : Type := mkHooks {
  hooks_own : gmap string Hook;
  hooks_proto : option Hook
}.

Record Data : Type := mkData {
  start : Date;
  end_ : option DateInstance;   (* null or what setEndTime stored *)
  hooks : Hooks;
  hookOrder : list string;
  terminalState : value         (* null or the state stored *)
}.

(** function Data (start) *)
Definition new_Data (start : Date) : Data :=
  {| start := start;
     end_ := None;
     hooks := mkHooks ∅ None;
     hookOrder := [];
     terminalState := VNull |}.

(** getDuration: [None] is the [null] returned while [end] is null.  In
    [this.end - this.start] the conversion of [this.end] to a number can
    throw when it is not a [Date] object; [this.start] is one. *)
Definition getDuration (this : Data) : completion (option number) :=
  match end_ this with
  | None => Return None
  | Some e =>
      match DateInstance_ToNumber e with
      | Return n => Return (Some (minus n (getTime (start this))))
      | Throw ex => Throw ex
      end
  end.

Definition getIsError (this : Data) : bool :=
  strict_equals (terminalState this) ERROR.

Definition getIsSkip (this : Data) : bool :=
  strict_equals (terminalState this) SKIP.

Definition getIsSuccess (this : Data) : bool :=
  strict_equals (terminalState this) SUCCESS.

(** What [hooks[k]] resolves to. *)
Inductive hook_target : Type :=
  | OwnEntry (h : Hook)        (* the entry stored under k *)
  | ProtoEntry (h : Hook)      (* the entry installed as prototype *)
  | ObjectPrototype            (* Object.prototype itself *)
  | OtherObject                (* a Date or a built-in function *)
  | Missing.                   (* undefined *)

Definition Object_prototype_target (polluted : bool) (k : string) : hook_target :=
  match Object_prototype_get polluted k with
  | IsNullish => Missing
  | _ => OtherObject
  end.

Definition Hooks_get (polluted : bool) (hs : Hooks) (k : string) : hook_target :=
  if String.eqb k "__proto__" then
    match hooks_proto hs with
    | Some h => ProtoEntry h
    | None => ObjectPrototype
    end
  else
    match hooks_own hs !! k with
    | Some h => OwnEntry h
    | None =>
        match hooks_proto hs with
        | Some h =>
            if String.eqb k "start" then OtherObject
            else if String.eqb k "end" then
              match hook_end h with
              | Some _ => OtherObject
              | None => Object_prototype_target polluted k
              end
            else Object_prototype_target polluted k
        | None => Object_prototype_target polluted k
        end
    end.

(** [hooks[k] = h] *)
Definition Hooks_set (k : string) (h : Hook) (hs : Hooks) : Hooks :=
  if String.eqb k "__proto__" then mkHooks (hooks_own hs) (Some h)
  else mkHooks (<[k := h]> (hooks_own hs)) (hooks_proto hs).

(** A read [d[k]] on a [Data] record [d], as it happens when [d] has become
    the prototype of a dictionary: own fields, then [Data.prototype], then
    [Object.prototype]. *)
Definition Data_prototype_names : list string :=
  [ "constructor"; "getDuration"; "getIsError"; "getIsSkip"; "getIsSuccess";
    "setTerminalState"; "addHookStart"; "addHookEnd"; "setEndTime" ].

Definition Data_get (polluted : bool) (d : Data) (k : string) : property :=
  if String.eqb k "start" then IsOther true
  else if String.eqb k "end" then
    match end_ d with
    | None => IsNullish
    | Some _ => IsOther true
    end
  else if String.eqb k "hooks" then IsOther true
  else if String.eqb k "hookOrder" then IsOther true
  else if String.eqb k "terminalState" then property_of_value (terminalState d)
  else if bool_decide (k ∈ Data_prototype_names) then IsOther true
  else Object_prototype_get polluted k.

(** ** Aggregator *)

(** The objects [this._suites] and [this._tests]: own properties keyed by
    uid, each holding a reference to a [Data] record, and the prototype,
    which the assignment [o['__proto__'] = data] replaces by the record
    ([None] is the initial [Object.prototype]). *)
Record Dict : Type := mkDict {
  own : gmap string loc;
  proto : option loc
}.

Record Aggregator : Type := mkAggregator {
  _suites : Dict;
  _tests : Dict;
  _start : option Date;         (* undefined until 'start' *)
  _end : option Date            (* undefined until 'end' *)
}.

(** The heap of [Data] records, the aggregator, and the one piece of the
    global environment a handler can reach: whether [Object.prototype] has
    an [end] property. *)
Record World : Type := mkWorld {
  heap : gmap loc Data;
  self : Aggregator;
  Object_prototype_end : bool
}.

Definition set_heap (f : gmap loc Data → gmap loc Data) (w : World) : World :=
  mkWorld (f (heap w)) (self w) (Object_prototype_end w).

Definition set_self (f : Aggregator → Aggregator) (w : World) : World :=
  mkWorld (heap w) (f (self w)) (Object_prototype_end w).

Definition set_Object_prototype_end (b : bool) (w : World) : World :=
  mkWorld (heap w) (self w) b.

(** [o[k]] on a dictionary. *)
Definition Dict_get (w : World) (o : Dict) (k : string) : property :=
  if String.eqb k "__proto__" then
    match proto o with
    | Some l => IsData l
    | None => IsOther true
    end
  else
    match own o !! k with
    | Some l => IsData l
    | None =>
        match proto o with
        | Some l =>
            match heap w !! l with
            | Some d => Data_get (Object_prototype_end w) d k
            | None => Object_prototype_get (Object_prototype_end w) k
            end
        | None => Object_prototype_get (Object_prototype_end w) k
        end
    end.

(** [o[k] = data] *)
Definition Dict_set (k : string) (l : loc) (o : Dict) : Dict :=
  if String.eqb k "__proto__" then mkDict (own o) (Some l)
  else mkDict (<[k := l]> (own o)) (proto o).

(** *** Computations: state with exceptions

    A thrown exception keeps the world as mutated so far. *)
Definition M (A : Type) : Type := World → completion A * World.

Definition ret {A} (a : A) : M A := λ w, (Return a, w).

Definition throw {A} (e : exn) : M A := λ w, (Throw e, w).

Definition bind {A B} (m : M A) (k : A → M B) : M B :=
  λ w, match m w with
       | (Return a, w') => k a w'
       | (Throw e, w') => (Throw e, w')
       end.

Notation "x <- m ;; k" := (bind m (λ x, k))
  (at level 100, m at next level, right associativity).
Notation "m ;;; k" := (bind m (λ _, k))
  (at level 100, right associativity).

Definition get_world : M World := λ w, (Return w, w).

Definition modify (f : World → World) : M unit := λ w, (Return tt, f w).

(** Field writes on the record at [this]. *)
Definition update (this : loc) (f : Data → Data) : M unit :=
  modify (set_heap (alter f this)).

(** Reading the record at [this]; a location names a record of the heap. *)
Definition deref (this : loc) : M Data :=
  λ w, match heap w !! this with
       | Some d => (Return d, w)
       | None => (Throw TypeError, w)
       end.

(** [new Data(start)] *)
Definition alloc (d : Data) : M loc :=
  λ w, let l := fresh (dom (heap w)) in
       (Return l, set_heap (insert l d) w).

(** *** The mutating methods of Data *)

Definition with_terminalState (v : value) (d : Data) : Data :=
  mkData (start d) (end_ d) (hooks d) (hookOrder d) v.

Definition with_end_instance (e : DateInstance) (d : Data) : Data :=
  mkData (start d) (Some e) (hooks d) (hookOrder d) (terminalState d).

(** The write of a [Date] object, as the handlers pass one. *)
Definition with_end (e : Date) (d : Data) : Data :=
  with_end_instance (ADate e) d.

Definition with_hooks (f : Hooks → Hooks) (d : Data) : Data :=
  mkData (start d) (end_ d) (f (hooks d)) (hookOrder d) (terminalState d).

Definition push_hookOrder (k : string) (d : Data) : Data :=
  mkData (start d) (end_ d) (hooks d) (hookOrder d ++ [k]) (terminalState d).

Definition setTerminalState (this : loc) (state : value) : M unit :=
  if strict_equals state ERROR || strict_equals state SKIP
     || strict_equals state SUCCESS
  then update this (with_terminalState state)
  else throw (Error "state must be a valid terminalState").

Definition addHookStart (now : Z) (this : loc) (hookUID : string) : M unit :=
  update this (with_hooks (Hooks_set hookUID (mkHook (new_Date now) None))) ;;;
  update this (push_hookOrder hookUID).

Definition Hook_with_end (e : Date) (h : Hook) : Hook :=
  mkHook (hook_start h) (Some e).

(** [this.hooks[hookUID].end = new Date()].  The write lands on whatever
    object the read resolves to: an entry of this record, an object outside
    it (where nothing in this file can see it), or [Object.prototype]. *)
Definition addHookEnd (now : Z) (this : loc) (hookUID : string) : M unit :=
  d <- deref this ;;
  w <- get_world ;;
  match Hooks_get (Object_prototype_end w) (hooks d) hookUID with
  | Missing => throw TypeError
  | OwnEntry h =>
      update this (with_hooks (λ hs,
        mkHooks (<[hookUID := Hook_with_end (new_Date now) h]> (hooks_own hs))
                (hooks_proto hs)))
  | ProtoEntry h =>
      update this (with_hooks (λ hs,
        mkHooks (hooks_own hs) (Some (Hook_with_end (new_Date now) h))))
  | ObjectPrototype => modify (set_Object_prototype_end true)
  | OtherObject => ret tt
  end.

Definition setEndTime (this : loc) (e : value) : M unit :=
  match as_DateInstance e with
  | Some i => update this (with_end_instance i)
  | None => throw (Error "end must be an instanceof Date")
  end.

(** [p.method(...)]: only a [Data] record has the methods. *)
Definition call (p : property) (method : loc → M unit) : M unit :=
  match p with
  | IsData l => method l
  | IsNullish => throw TypeError
  | IsOther _ => throw TypeError
  end.

(** *** The events of the runner and their handlers *)

(** A hook payload: [hook.uid], and [hook.ctx.currentTest.uid] when every
    link of that chain is there. *)
Record HookPayload : Type := mkHookPayload {
  uid : string;
  currentTest_uid : option string
}.

Inductive Event : Type :=
  | RunStart                       (* 'start' *)
  | RunEnd                         (* 'end' *)
  | Suite (uid : string)           (* 'suite' *)
  | SuiteEnd (uid : string)        (* 'suite end' *)
  | Test (uid : string)            (* 'test' *)
  | TestEnd (uid : string)         (* 'test end' *)
  | HookStart (hook : HookPayload) (* 'hook' *)
  | HookEnd (hook : HookPayload)   (* 'hook end' *)
  | Pass (uid : string)            (* 'pass' *)
  | Fail (uid : string)            (* 'fail' *)
  | Pending (uid : string).        (* 'pending' *)

Definition with_suites (f : Dict → Dict) (a : Aggregator) : Aggregator :=
  mkAggregator (f (_suites a)) (_tests a) (_start a) (_end a).

Definition with_tests (f : Dict → Dict) (a : Aggregator) : Aggregator :=
  mkAggregator (_suites a) (f (_tests a)) (_start a) (_end a).

Definition with_start (t : Date) (a : Aggregator) : Aggregator :=
  mkAggregator (_suites a) (_tests a) (Some t) (_end a).

Definition with_run_end (t : Date) (a : Aggregator) : Aggregator :=
  mkAggregator (_suites a) (_tests a) (_start a) (Some t).

Definition suites_get (k : string) : M property :=
  w <- get_world ;; ret (Dict_get w (_suites (self w)) k).

Definition tests_get (k : string) : M property :=
  w <- get_world ;; ret (Dict_get w (_tests (self w)) k).

(** [hook && hook.ctx && hook.ctx.currentTest && hook.ctx.currentTest.uid]:
    an empty uid is falsy. *)
Definition owning_test (hook : HookPayload) : option string :=
  match currentTest_uid hook with
  | Some t => if String.eqb t "" then None else Some t
  | None => None
  end.

(** The handler registered for each event, run at clock reading [now]. *)
Definition on (now : Z) (e : Event) : M unit :=
  match e with
  | RunStart => modify (set_self (with_start (new_Date now)))
  | RunEnd => modify (set_self (with_run_end (new_Date now)))
  | Suite k =>
      l <- alloc (new_Data (new_Date now)) ;;
      modify (set_self (with_suites (Dict_set k l)))
  | SuiteEnd k =>
      p <- suites_get k ;;
      call p (λ l, setEndTime l (VDate (new_Date now)))
  | Test k =>
      l <- alloc (new_Data (new_Date now)) ;;
      modify (set_self (with_tests (Dict_set k l)))
  | TestEnd k =>
      p <- tests_get k ;;
      call p (λ l, setEndTime l (VDate (new_Date now)))
  | HookStart hook =>
      match owning_test hook with
      | Some t =>
          p <- tests_get t ;;
          call p (λ l, addHookStart now l (uid hook))
      | None => ret tt
      end
  | HookEnd hook =>
      match owning_test hook with
      | Some t =>
          p <- tests_get t ;;
          call p (λ l, addHookEnd now l (uid hook))
      | None => ret tt
      end
  | Pass k =>
      p <- tests_get k ;;
      call p (λ l, setTerminalState l (VString SUCCESS))
  | Fail k =>
      p <- tests_get k ;;
      if truthy p then call p (λ l, setTerminalState l (VString ERROR))
      else ret tt
  | Pending k =>
      p <- tests_get k ;;
      call p (λ l, setTerminalState l (VString SKIP))
  end.

(** function Aggregator (runner) *)
Definition new_Aggregator : World :=
  mkWorld ∅ (mkAggregator (mkDict ∅ None) (mkDict ∅ None) None None) false.

(** The world after the runner has emitted a sequence of events, each at its
    clock reading; an exception thrown by a handler goes to the emitter and
    the following events are still delivered. *)
Definition emit (w : World) (ev : Z * Event) : World :=
  snd (on (fst ev) (snd ev) w).

Definition run (evs : list (Z * Event)) (w : World) : World :=
  fold_left emit evs w.

(** *** Queries *)

Definition getTestData (k : string) : M property :=
  data <- tests_get k ;;
  if negb (truthy data) then throw (Error "uid is invalid for tests")
  else ret data.

Definition getSuiteData (k : string) : M property :=
  data <- suites_get k ;;
  if negb (truthy data) then throw (Error "uid is invalid for suites")
  else ret data.

(** GetIterator for [for (const data of o)]: the method is read from
    [o[Symbol.iterator]].  The dictionary's own keys are uid strings, and
    neither a [Data] record, [Data.prototype] nor [Object.prototype] has
    the symbol, so there is no sequence to iterate. *)
Definition Symbol_iterator (w : World) (o : Dict) : option (list Data) := None.

(** [for (const data of o) { acc = body acc data }] *)
Definition for_of {A} (o : World → Dict) (body : A → Data → A) (init : A) : M A :=
  w <- get_world ;;
  match Symbol_iterator w (o w) with
  | None => throw TypeError
  | Some datas => ret (fold_left body datas init)
  end.

(** [total += b] for a boolean [b] *)
Definition add_boolean (total : Z) (b : bool) : Z :=
  total + (if b then 1 else 0).

Definition getNumberOfErrors : M Z :=
  for_of (λ w, _tests (self w))
    (λ total data, add_boolean total (getIsError data)) 0.

Definition getNumberOfSkips : M Z :=
  for_of (λ w, _tests (self w))
    (λ total data, add_boolean total (getIsSkip data)) 0.

Definition getNumberOfSuccesses : M Z :=
  for_of (λ w, _tests (self w))
    (λ total data, add_boolean total (getIsSuccess data)) 0.

(** [None] is the [null] returned while [_end] is undefined. *)
Definition getTotalDuration (w : World) : option number :=
  match _end (self w) with
  | None => None
  | Some e => Some (minus (getTime e) (ToNumber (_start (self w))))
  end.

(** ** Vocabulary of the statements *)

(** The record a dictionary holds for a uid: the mapping from identifiers to
    records that the 'suite' and 'test' events build. *)
Definition Dict_lookup (o : Dict) (k : string) : option loc :=
  if String.eqb k "__proto__" then proto o else own o !! k.

(** A valid timestamp: a [Date] object that denotes a time. *)
Definition valid_timestamp (v : value) : Prop :=
  ∃ t : Z, v = VDate (mkDate (Num t)).

(** The three values [setTerminalState] recognises. *)
Definition recognised (state : value) : Prop :=
  state = VString SUCCESS ∨ state = VString ERROR ∨ state = VString SKIP.

Definition no_outcome (d : Data) : Prop :=
  getIsError d = false ∧ getIsSkip d = false ∧ getIsSuccess d = false.

Definition one_outcome (d : Data) : Prop :=
  (getIsError d = true ∧ getIsSkip d = false ∧ getIsSuccess d = false)
  ∨ (getIsError d = false ∧ getIsSkip d = true ∧ getIsSuccess d = false)
  ∨ (getIsError d = false ∧ getIsSkip d = false ∧ getIsSuccess d = true).

Definition is_outcome (e : Event) : bool :=
  match e with
  | Pass _ | Fail _ | Pending _ => true
  | _ => false
  end.

(** Whether, in a sequence of events, an outcome event for test [k] has come
    after the last 'test' event for [k], the one that created its record. *)
Definition settle (k : string) (acc : bool) (ev : Z * Event) : bool :=
  match snd ev with
  | Test k' => if String.eqb k' k then false else acc
  | Pass k' | Fail k' | Pending k' => if String.eqb k' k then true else acc
  | _ => acc
  end.

Definition settled (evs : list (Z * Event)) (k : string) : bool :=
  fold_left (settle k) evs false.

(** The clock reading of the last 'start' and of the last 'end' event. *)
Definition last_RunStart (evs : list (Z * Event)) : option Z :=
  fold_left (λ acc ev, match snd ev with RunStart => Some (fst ev) | _ => acc end)
            evs None.

Definition last_RunEnd (evs : list (Z * Event)) : option Z :=
  fold_left (λ acc ev, match snd ev with RunEnd => Some (fst ev) | _ => acc end)
            evs None.

(** Calls of the two hook methods on one record, each at its clock reading. *)
Inductive HookCall : Type :=
  | Started (hookUID : string)
  | Ended (hookUID : string).

Definition hook_call (this : loc) (w : World) (c : Z * HookCall) : World :=
  match snd c with
  | Started h => snd (addHookStart (fst c) this h w)
  | Ended h => snd (addHookEnd (fst c) this h w)
  end.

Definition started (cs : list (Z * HookCall)) : list string :=
  omap (λ c, match snd c with Started h => Some h | Ended _ => None end) cs.

(** The entry a hook lookup reaches, when it reaches one. *)
Definition entry (t : hook_target) : option Hook :=
  match t with
  | OwnEntry h | ProtoEntry h => Some h
  | _ => None
  end.

(** What a consumer does with a value a query returned: it calls a method
    of [Data] on it. *)
Definition consumer_calls (p : property) (method : loc → M unit) (w : World) : World :=
  snd (call p method w).

(** The mutating methods of [Data] a consumer can call on a record. *)
Inductive MethodCall : Type :=
  | CallSetTerminalState (state : value)
  | CallSetEndTime (e : value)
  | CallAddHookStart (now : Z) (hookUID : string)
  | CallAddHookEnd (now : Z) (hookUID : string).

Definition invoke (c : MethodCall) (this : loc) : M unit :=
  match c with
  | CallSetTerminalState state => setTerminalState this state
  | CallSetEndTime e => setEndTime this e
  | CallAddHookStart now h => addHookStart now this h
  | CallAddHookEnd now h => addHookEnd now this h
  end.

(** A value gives read access only when no method call on it changes the
    world. *)
Definition read_only (w : World) (p : property) : Prop :=
  ∀ c, consumer_calls p (invoke c) w = w.

(** *** Vocabulary of the further properties *)

(** The events that construct a record. *)
Definition is_constructing (e : Event) : bool :=
  match e with
  | Suite _ | Test _ => true
  | _ => false
  end.

(** How many records a sequence of events constructs. *)
Definition constructions (evs : list (Z * Event)) : nat :=
  length (filter (λ ev, is_constructing (snd ev) = true) evs).

(** For test [k]: the clock reading of the last 'test' event for [k], and
    that of the last 'test end' event for [k] that came after it. *)
Definition test_clock (k : string) (acc : option (Z * option Z))
    (ev : Z * Event) : option (Z * option Z) :=
  match snd ev with
  | Test k' => if String.eqb k' k then Some (fst ev, None) else acc
  | TestEnd k' =>
      if String.eqb k' k then (λ p, (fst p, Some (fst ev))) <$> acc else acc
  | _ => acc
  end.

Definition test_times (evs : list (Z * Event)) (k : string) : option (Z * option Z) :=
  fold_left (test_clock k) evs None.

(** The same for suite [k], with 'suite' and 'suite end'. *)
Definition suite_clock (k : string) (acc : option (Z * option Z))
    (ev : Z * Event) : option (Z * option Z) :=
  match snd ev with
  | Suite k' => if String.eqb k' k then Some (fst ev, None) else acc
  | SuiteEnd k' =>
      if String.eqb k' k then (λ p, (fst p, Some (fst ev))) <$> acc else acc
  | _ => acc
  end.

Definition suite_times (evs : list (Z * Event)) (k : string) : option (Z * option Z) :=
  fold_left (suite_clock k) evs None.

(** The records of the two dictionaries are in the heap, and no record is
    held under two identifiers, of one dictionary or of both. *)
Definition records_separate (w : World) : Prop :=
  (∀ k l, Dict_lookup (_tests (self w)) k = Some l → is_Some (heap w !! l))
  ∧ (∀ k l, Dict_lookup (_suites (self w)) k = Some l → is_Some (heap w !! l))
  ∧ (∀ k k' l, Dict_lookup (_tests (self w)) k = Some l →
               Dict_lookup (_tests (self w)) k' = Some l → k = k')
  ∧ (∀ k k' l, Dict_lookup (_suites (self w)) k = Some l →
               Dict_lookup (_suites (self w)) k' = Some l → k = k')
  ∧ (∀ k k' l, Dict_lookup (_tests (self w)) k = Some l →
               Dict_lookup (_suites (self w)) k' = Some l → False).

(** The terminal state the events leave for test [k]: that of the last
    outcome event for [k] since the last 'test' event for [k], and null
    when there was none. *)
Definition outcome_clock (k : string) (acc : value) (ev : Z * Event) : value :=
  match snd ev with
  | Test k' => if String.eqb k' k then VNull else acc
  | Pass k' => if String.eqb k' k then VString SUCCESS else acc
  | Fail k' => if String.eqb k' k then VString ERROR else acc
  | Pending k' => if String.eqb k' k then VString SKIP else acc
  | _ => acc
  end.

Definition last_outcome (evs : list (Z * Event)) (k : string) : value :=
  fold_left (outcome_clock k) evs VNull.

(** The uids of the hooks that 'hook' events have started for test [k]
    since the last 'test' event for [k], in the order of the events. *)
Definition hook_clock (k : string) (acc : list string) (ev : Z * Event) : list string :=
  match snd ev with
  | Test k' => if String.eqb k' k then [] else acc
  | HookStart hook =>
      match owning_test hook with
      | Some t => if String.eqb t k then acc ++ [uid hook] else acc
      | None => acc
      end
  | _ => acc
  end.

Definition hooks_started (evs : list (Z * Event)) (k : string) : list string :=
  fold_left (hook_clock k) evs [].

(** The start and the end of a record. *)
Definition timing (d : Data) : Date * option DateInstance := (start d, end_ d).

(** ** Basic facts *)

(** Unfolds a handler down to the world it computes. *)
Ltac run_handler :=
  cbv [emit on bind tests_get suites_get get_world ret call modify alloc throw
       owning_test fst snd setEndTime as_DateInstance setTerminalState
       addHookStart addHookEnd update deref].

Lemma Dict_get_IsData w o k l :
  Dict_get w o k = IsData l ↔ Dict_lookup o k = Some l.
Proof.
  unfold Dict_get, Dict_lookup, Data_get, Object_prototype_get, property_of_value.
  repeat (case_match; simplify_eq/=); naive_solver.
Qed.

Lemma Dict_lookup_set k k' l o :
  Dict_lookup (Dict_set k l o) k' = if decide (k = k') then Some l else Dict_lookup o k'.
Proof.
  unfold Dict_lookup, Dict_set.
  destruct (String.eqb_spec k "__proto__"), (String.eqb_spec k' "__proto__");
    case_decide; simplify_eq/=; try done.
  - by rewrite lookup_insert_eq.
  - by rewrite lookup_insert_ne.
Qed.

Lemma recognised_test state :
  recognised state ↔
  strict_equals state ERROR || strict_equals state SKIP
    || strict_equals state SUCCESS = true.
Proof.
  unfold recognised, strict_equals, ERROR, SKIP, SUCCESS. split.
  - intros [-> | [-> | ->]]; reflexivity.
  - destruct state; try discriminate.
    intros H. apply orb_true_iff in H as [H | H];
      [apply orb_true_iff in H as [H | H] |];
      apply String.eqb_eq in H; subst; auto.
Qed.

Lemma one_outcome_with_terminalState state d :
  recognised state → one_outcome (with_terminalState state d).
Proof.
  unfold one_outcome, getIsError, getIsSkip, getIsSuccess.
  intros [-> | [-> | ->]]; simpl; auto.
Qed.

Lemma setTerminalState_recognised w this state :
  recognised state →
  setTerminalState this state w
  = (Return tt, set_heap (alter (with_terminalState state) this) w).
Proof.
  intros H%recognised_test. unfold setTerminalState. by rewrite H.
Qed.

Lemma setTerminalState_other w this state :
  ¬ recognised state →
  setTerminalState this state w
  = (Throw (Error "state must be a valid terminalState"), w).
Proof.
  intros H. unfold setTerminalState.
  destruct (_ || _ || _) eqn:E; [|done].
  by apply recognised_test in E.
Qed.

(** ** Data: terminal state *)

(** C5.  On every record, [setTerminalState] called with a value other than
    'success', 'error' and 'skip' throws the error "state must be a valid
    terminalState" and leaves the whole world, hence the record, as it was;
    called with one of the three values it returns normally and the record
    then holds that value as its terminal state, its other fields and all
    other records being unchanged. *)
Theorem setTerminalState_spec (w : World) (this : loc) (d : Data) (state : value) :
  heap w !! this = Some d →
  (¬ recognised state →
     setTerminalState this state w
     = (Throw (Error "state must be a valid terminalState"), w))
  ∧ (recognised state →
     ∃ w', setTerminalState this state w = (Return tt, w')
           ∧ heap w' !! this = Some (with_terminalState state d)
           ∧ terminalState (with_terminalState state d) = state
           ∧ (∀ l, l ≠ this → heap w' !! l = heap w !! l)
           ∧ self w' = self w).
Proof.
  intros Hd. split.
  - apply setTerminalState_other.
  - intros Hr. eexists. split; [by apply setTerminalState_recognised|].
    simpl. rewrite lookup_alter_eq, Hd.
    split; [done|]. split; [done|]. split; [|done].
    intros l Hl. by rewrite lookup_alter_ne.
Qed.

Lemma setTerminalState_spec_witness :
  setTerminalState 1%positive (VString "bogus")
    (mkWorld {[ 1%positive := new_Data (new_Date 0) ]}
             (self new_Aggregator) false)
  = (Throw (Error "state must be a valid terminalState"),
     mkWorld {[ 1%positive := new_Data (new_Date 0) ]}
             (self new_Aggregator) false).
Proof.
  refine (proj1 (setTerminalState_spec _ 1%positive (new_Data (new_Date 0))
                   (VString "bogus") _) _).
  - apply lookup_singleton_eq.
  - unfold recognised, SUCCESS, ERROR, SKIP. intros [H | [H | H]]; discriminate H.
Defined.

(** C10.  A record that already holds one of the three terminal states
    accepts [setTerminalState] with any of the three again: the call
    returns normally and the new value replaces the old one.  In
    particular a 'fail' event for a test whose record says success makes
    that record say error. *)
Theorem setTerminalState_overwrites (w : World) (this : loc) (d : Data) (state : value) :
  heap w !! this = Some d →
  recognised (terminalState d) →
  recognised state →
  (∃ w', setTerminalState this state w = (Return tt, w')
         ∧ heap w' !! this = Some (with_terminalState state d)
         ∧ terminalState (with_terminalState state d) = state)
  ∧ (∀ now k, Dict_lookup (_tests (self w)) k = Some this →
       ∃ w', on now (Fail k) w = (Return tt, w')
             ∧ heap w' !! this = Some (with_terminalState (VString ERROR) d)
             ∧ getIsError (with_terminalState (VString ERROR) d) = true
             ∧ getIsSuccess (with_terminalState (VString ERROR) d) = false
             ∧ getIsSkip (with_terminalState (VString ERROR) d) = false).
Proof.
  intros Hd _ Hr. split.
  - eexists. split; [by apply setTerminalState_recognised|].
    simpl. by rewrite lookup_alter_eq, Hd.
  - intros now k Hk. apply (Dict_get_IsData w) in Hk.
    eexists. cbv [on bind tests_get get_world ret].
    rewrite Hk. simpl.
    split; [reflexivity|]. simpl. by rewrite lookup_alter_eq, Hd.
Qed.

Lemma setTerminalState_overwrites_witness :
  ∃ w', on 7 (Fail "t1")
          (mkWorld {[ 1%positive := with_terminalState (VString SUCCESS)
                                      (new_Data (new_Date 0)) ]}
                   (mkAggregator (mkDict ∅ None)
                                 (mkDict {[ "t1" := 1%positive ]} None)
                                 None None) false)
        = (Return tt, w')
        ∧ heap w' !! 1%positive
          = Some (with_terminalState (VString ERROR)
                    (with_terminalState (VString SUCCESS) (new_Data (new_Date 0)))).
Proof.
  destruct (setTerminalState_overwrites
              (mkWorld {[ 1%positive := with_terminalState (VString SUCCESS)
                                          (new_Data (new_Date 0)) ]}
                       (mkAggregator (mkDict ∅ None)
                                     (mkDict {[ "t1" := 1%positive ]} None)
                                     None None) false)
              1%positive _ (VString ERROR)
              (lookup_singleton_eq _ _)
              (or_introl eq_refl) (or_intror (or_introl eq_refl)))
    as [_ H].
  destruct (H 7 "t1" eq_refl) as (w' & H1 & H2 & _).
  exists w'. split; [exact H1 | exact H2].
Defined.

(** ** Data: end time and duration *)

(** C8, as the code has it.  On every record, [setEndTime] called with a
    value that is not an instance of [Date] ([instanceof], the test of the
    code) throws the error "end must be an instanceof Date" and changes
    nothing; called with an instance of [Date] it returns normally and the
    record's [end] is that object, be it a [Date] that denotes a time, an
    invalid [Date], or another object with [Date.prototype] on its
    prototype chain.  [getDuration] is [null] while [end] is null.  Once
    [end] is set it is [end - start]: for a [Date] the difference of the
    two time values ([NaN] for an invalid date); for another instance the
    number its conversion yields minus the start, or the exception that
    its conversion throws. *)
Theorem setEndTime_getDuration (w : World) (this : loc) (d : Data) (e : value) :
  heap w !! this = Some d →
  (instanceof_Date e = false →
     setEndTime this e w = (Throw (Error "end must be an instanceof Date"), w))
  ∧ (instanceof_Date e = true →
     ∃ i w', as_DateInstance e = Some i
             ∧ setEndTime this e w = (Return tt, w')
             ∧ heap w' !! this = Some (with_end_instance i d)
             ∧ end_ (with_end_instance i d) = Some i)
  ∧ (∀ t, e = VDate t →
     ∃ w', setEndTime this e w = (Return tt, w')
           ∧ heap w' !! this = Some (with_end t d)
           ∧ end_ (with_end t d) = Some (ADate t)
           ∧ getDuration (with_end t d)
             = Return (Some (minus (getTime t) (getTime (start d)))))
  ∧ (end_ d = None → getDuration d = Return None)
  ∧ (∀ t, end_ d = Some (ADate t) →
     getDuration d = Return (Some (minus (getTime t) (getTime (start d)))))
  ∧ (∀ n, end_ d = Some (Inherits (Return n)) →
     getDuration d = Return (Some (minus n (getTime (start d)))))
  ∧ (∀ ex, end_ d = Some (Inherits (Throw ex)) → getDuration d = Throw ex).
Proof.
  intros Hd. repeat apply conj.
  - by destruct e.
  - unfold setEndTime. destruct e; try discriminate; intros _;
      eexists _, _; (split; [reflexivity|]); (split; [reflexivity|]);
      simpl; by rewrite lookup_alter_eq, Hd.
  - intros t ->. eexists. split; [reflexivity|].
    simpl. by rewrite lookup_alter_eq, Hd.
  - unfold getDuration. by intros ->.
  - unfold getDuration. by intros t ->.
  - unfold getDuration. by intros n ->.
  - unfold getDuration. by intros ex ->.
Qed.

Lemma setEndTime_getDuration_witness :
  setEndTime 1%positive (VNumber (Num 5))
    (mkWorld {[ 1%positive := new_Data (new_Date 2) ]} (self new_Aggregator) false)
  = (Throw (Error "end must be an instanceof Date"),
     mkWorld {[ 1%positive := new_Data (new_Date 2) ]} (self new_Aggregator) false)
  ∧ getDuration (with_end (new_Date 5) (new_Data (new_Date 2)))
    = Return (Some (Num 3))
  ∧ getDuration (new_Data (new_Date 2)) = Return None
  ∧ getDuration (with_end_instance (Inherits (Throw TypeError))
                   (new_Data (new_Date 2)))
    = Throw TypeError.
Proof.
  destruct (setEndTime_getDuration
              (mkWorld {[ 1%positive := new_Data (new_Date 2) ]}
                       (self new_Aggregator) false)
              1%positive (new_Data (new_Date 2)) (VNumber (Num 5))
              (lookup_singleton_eq _ _)) as (H1 & _ & _ & H3 & _).
  destruct (setEndTime_getDuration
              (mkWorld {[ 1%positive := new_Data (new_Date 2) ]}
                       (self new_Aggregator) false)
              1%positive (new_Data (new_Date 2)) (VDate (new_Date 5))
              (lookup_singleton_eq _ _)) as (_ & _ & H2 & _).
  destruct (H2 (new_Date 5) eq_refl) as (w' & _ & _ & _ & H4).
  destruct (setEndTime_getDuration
              (mkWorld {[ 1%positive :=
                            with_end_instance (Inherits (Throw TypeError))
                              (new_Data (new_Date 2)) ]}
                       (self new_Aggregator) false)
              1%positive
              (with_end_instance (Inherits (Throw TypeError))
                 (new_Data (new_Date 2)))
              VNull (lookup_singleton_eq _ _)) as (_ & _ & _ & _ & _ & _ & H5).
  split; [exact (H1 eq_refl)|]. split; [exact H4|].
  split; [exact (H3 eq_refl) | exact (H5 TypeError eq_refl)].
Defined.

(** C8, as the claim states it, fails.  An invalid date, [new Date(NaN)],
    is not a valid timestamp, yet [setEndTime] returns normally and stores
    it, and the duration is [NaN].  [Object.create(Date.prototype)] is not
    a valid timestamp either, [setEndTime] returns normally and stores it
    as well, and [getDuration], with [end] set, throws a TypeError instead
    of returning [end - start]. *)
Lemma setEndTime_accepts_invalid_timestamps :
  ¬ valid_timestamp (VDate (mkDate NaN))
  ∧ setEndTime 1%positive (VDate (mkDate NaN))
      (mkWorld {[ 1%positive := new_Data (new_Date 2) ]} (self new_Aggregator) false)
    = (Return tt,
       mkWorld {[ 1%positive := with_end (mkDate NaN) (new_Data (new_Date 2)) ]}
               (self new_Aggregator) false)
  ∧ getDuration (with_end (mkDate NaN) (new_Data (new_Date 2))) = Return (Some NaN)
  ∧ ¬ valid_timestamp (VInheritsDate (Throw TypeError))
  ∧ setEndTime 1%positive (VInheritsDate (Throw TypeError))
      (mkWorld {[ 1%positive := new_Data (new_Date 2) ]} (self new_Aggregator) false)
    = (Return tt,
       mkWorld {[ 1%positive := with_end_instance (Inherits (Throw TypeError))
                                  (new_Data (new_Date 2)) ]}
               (self new_Aggregator) false)
  ∧ getDuration (with_end_instance (Inherits (Throw TypeError))
                   (new_Data (new_Date 2)))
    = Throw TypeError.
Proof.
  repeat apply conj; try done.
  - intros [t Ht]. discriminate Ht.
  - intros [t Ht]. discriminate Ht.
Qed.

(** ** Data: hooks *)

Lemma Hooks_get_set polluted k h hs :
  entry (Hooks_get polluted (Hooks_set k h hs) k) = Some h.
Proof.
  unfold Hooks_get, Hooks_set.
  destruct (String.eqb k "__proto__"); cbn [hooks_own hooks_proto entry]; [done|].
  by rewrite lookup_insert_eq.
Qed.

Lemma addHookStart_run now this k w :
  addHookStart now this k w
  = (Return tt,
     set_heap (alter (λ d, push_hookOrder k
                 (with_hooks (Hooks_set k (mkHook (new_Date now) None)) d)) this) w).
Proof.
  cbv [addHookStart bind update modify set_heap]. simpl.
  by rewrite alter_alter_eq.
Qed.

(** [addHookEnd] leaves the hook order of every record alone, and keeps
    every record in place. *)
Lemma addHookEnd_hookOrder now this k w l :
  hookOrder <$> heap (snd (addHookEnd now this k w)) !! l
  = hookOrder <$> heap w !! l.
Proof.
  cbv [addHookEnd bind deref get_world].
  destruct (heap w !! this) as [d|] eqn:Hd; [|done].
  destruct (Hooks_get _ _ _); simpl; try done.
  - destruct (decide (this = l)) as [->|].
    + rewrite lookup_alter_eq. by destruct (heap w !! l).
    + by rewrite lookup_alter_ne.
  - destruct (decide (this = l)) as [->|].
    + rewrite lookup_alter_eq. by destruct (heap w !! l).
    + by rewrite lookup_alter_ne.
Qed.

Lemma hook_call_hookOrder this w c d :
  heap w !! this = Some d →
  ∃ d', heap (hook_call this w c) !! this = Some d'
        ∧ hookOrder d' = hookOrder d ++ started [c].
Proof.
  intros Hd. destruct c as [now [h | h]]; unfold hook_call; cbn [fst snd].
  - rewrite addHookStart_run. simpl. rewrite lookup_alter_eq, Hd. simpl.
    eexists. split; [reflexivity|]. done.
  - pose proof (addHookEnd_hookOrder now this h w this) as H.
    rewrite Hd in H. simpl in H.
    destruct (heap (snd (addHookEnd now this h w)) !! this) as [d'|]; [|done].
    exists d'. split; [done|]. simpl in H. rewrite app_nil_r. congruence.
Qed.

Lemma hook_calls_hookOrder this cs : ∀ w d,
  heap w !! this = Some d →
  ∃ d', heap (fold_left (hook_call this) cs w) !! this = Some d'
        ∧ hookOrder d' = hookOrder d ++ started cs.
Proof.
  induction cs as [|c cs IH]; intros w d Hd; simpl.
  - exists d. by rewrite app_nil_r.
  - destruct (hook_call_hookOrder this w c d Hd) as (d1 & H1 & E1).
    destruct (IH _ d1 H1) as (d2 & H2 & E2).
    exists d2. split; [done|]. rewrite E2, E1.
    rewrite <- app_assoc. f_equal.
    unfold started. simpl. by destruct c as [? []].
Qed.

(** C7.  On every record, [addHookStart now hookUID] returns normally;
    afterwards a lookup of [hookUID] in the record's hooks reaches a fresh
    entry whose start is [now] and whose end is absent, whatever was stored
    under that uid before, and the hook order is the old one with
    [hookUID] appended, so the uid occurs once more than before, also when
    it was already there.  Over any sequence of [addHookStart] and
    [addHookEnd] calls on the record, the hook order grows by exactly the
    uids started, in the order of the starts: [addHookEnd] calls do not
    touch it. *)
Theorem addHookStart_spec (w : World) (this : loc) (d : Data)
    (now : Z) (hookUID : string) :
  heap w !! this = Some d →
  (∃ w' d',
      addHookStart now this hookUID w = (Return tt, w')
      ∧ heap w' !! this = Some d'
      ∧ entry (Hooks_get (Object_prototype_end w') (hooks d') hookUID)
        = Some (mkHook (new_Date now) None)
      ∧ hookOrder d' = hookOrder d ++ [hookUID]
      ∧ count_occ String.string_dec (hookOrder d') hookUID
        = S (count_occ String.string_dec (hookOrder d) hookUID))
  ∧ (∀ cs : list (Z * HookCall),
      ∃ d', heap (fold_left (hook_call this) cs w) !! this = Some d'
            ∧ hookOrder d' = hookOrder d ++ started cs).
Proof.
  intros Hd. split.
  - eexists _, _. rewrite addHookStart_run. split; [reflexivity|].
    simpl. rewrite lookup_alter_eq, Hd. simpl. split; [reflexivity|].
    simpl. split; [apply Hooks_get_set|]. split; [done|].
    rewrite count_occ_app. simpl. destruct (String.string_dec _ _); [lia | done].
  - intros cs. by apply hook_calls_hookOrder.
Qed.

Lemma addHookStart_spec_witness :
  ∃ d', heap (fold_left (hook_call 1%positive)
                [(2, Started "h1"); (3, Started "h2"); (4, Ended "h2");
                 (5, Ended "h1"); (6, Started "h1")]
                (mkWorld {[ 1%positive := new_Data (new_Date 1) ]}
                         (self new_Aggregator) false)) !! 1%positive = Some d'
        ∧ hookOrder d' = ["h1"; "h2"; "h1"].
Proof.
  destruct (addHookStart_spec
              (mkWorld {[ 1%positive := new_Data (new_Date 1) ]}
                       (self new_Aggregator) false)
              1%positive (new_Data (new_Date 1)) 0 "h0"
              (lookup_singleton_eq _ _)) as [_ H].
  exact (H [(2, Started "h1"); (3, Started "h2"); (4, Ended "h2");
            (5, Ended "h1"); (6, Started "h1")]).
Defined.

(** ** Aggregator: queries *)

(** C1.  [getNumberOfErrors], [getNumberOfSkips] and [getNumberOfSuccesses]
    throw a TypeError in every state of the Aggregator, the initial one
    with no tests included: [this._tests] is a plain object, which [for
    ... of] cannot iterate.  None of them returns a count. *)
Theorem getNumberOf_throws (w : World) :
  getNumberOfErrors w = (Throw TypeError, w)
  ∧ getNumberOfSkips w = (Throw TypeError, w)
  ∧ getNumberOfSuccesses w = (Throw TypeError, w)
  ∧ getNumberOfErrors new_Aggregator ≠ (Return 0, new_Aggregator).
Proof. by repeat split. Qed.

(** A uid the dictionary holds a record for is answered with that record,
    and the query changes nothing. *)
Lemma getTestData_present w k l :
  Dict_lookup (_tests (self w)) k = Some l →
  getTestData k w = (Return (IsData l), w).
Proof.
  intros H%(Dict_get_IsData w). cbv [getTestData bind tests_get get_world ret].
  by rewrite H.
Qed.

Lemma getSuiteData_present w k l :
  Dict_lookup (_suites (self w)) k = Some l →
  getSuiteData k w = (Return (IsData l), w).
Proof.
  intros H%(Dict_get_IsData w). cbv [getSuiteData bind suites_get get_world ret].
  by rewrite H.
Qed.

(** A uid that no read of the dictionary resolves, own or inherited, is
    refused. *)
Lemma getTestData_unresolved w k :
  Dict_get w (_tests (self w)) k = IsNullish →
  getTestData k w = (Throw (Error "uid is invalid for tests"), w).
Proof.
  intros H. cbv [getTestData bind tests_get get_world ret]. by rewrite H.
Qed.

Lemma getSuiteData_unresolved w k :
  Dict_get w (_suites (self w)) k = IsNullish →
  getSuiteData k w = (Throw (Error "uid is invalid for suites"), w).
Proof.
  intros H. cbv [getSuiteData bind suites_get get_world ret]. by rewrite H.
Qed.

(** C6.  On a new Aggregator, whose two dictionaries hold no record at all,
    [getTestData('toString')] and [getSuiteData('toString')] do not throw:
    the read finds the function inherited from [Object.prototype] and the
    query returns it.  A uid never announced, such as 'unknown', is refused
    with the lookup error. *)
Theorem getTestData_inherited_name :
  Dict_lookup (_tests (self new_Aggregator)) "toString" = None
  ∧ getTestData "toString" new_Aggregator = (Return (IsOther true), new_Aggregator)
  ∧ Dict_lookup (_suites (self new_Aggregator)) "toString" = None
  ∧ getSuiteData "toString" new_Aggregator = (Return (IsOther true), new_Aggregator)
  ∧ getTestData "unknown" new_Aggregator
    = (Throw (Error "uid is invalid for tests"), new_Aggregator).
Proof. by repeat split. Qed.

(** ** Aggregator: outcome events for a uid without a record *)

(** 'fail' for a uid that no read of the dictionary resolves is ignored. *)
Lemma on_Fail_unresolved w now k :
  Dict_get w (_tests (self w)) k = IsNullish →
  on now (Fail k) w = (Return tt, w).
Proof.
  intros H. cbv [on bind tests_get get_world ret]. by rewrite H.
Qed.

(** 'pass' and 'pending' for a uid the dictionary holds no record for throw
    a TypeError and change nothing. *)
Lemma on_Pass_Pending_absent w now k :
  Dict_lookup (_tests (self w)) k = None →
  on now (Pass k) w = (Throw TypeError, w)
  ∧ on now (Pending k) w = (Throw TypeError, w).
Proof.
  intros H. cbv [on bind tests_get get_world ret].
  destruct (Dict_get w (_tests (self w)) k) as [l| |b] eqn:E; [|done..].
  apply Dict_get_IsData in E. congruence.
Qed.

(** C2.  On a new Aggregator, which holds no test record, the 'fail' event
    for the uid 'toString' is not ignored: the guard reads the function
    inherited from [Object.prototype], finds it truthy, and the call of
    [setTerminalState] on it throws a TypeError.  The 'fail' event for the
    uid 'unknown' is ignored, and 'pass' and 'pending' for it throw. *)
Theorem on_Fail_inherited_name (now : Z) :
  Dict_lookup (_tests (self new_Aggregator)) "toString" = None
  ∧ on now (Fail "toString") new_Aggregator = (Throw TypeError, new_Aggregator)
  ∧ on now (Fail "unknown") new_Aggregator = (Return tt, new_Aggregator)
  ∧ on now (Pass "unknown") new_Aggregator = (Throw TypeError, new_Aggregator)
  ∧ on now (Pending "unknown") new_Aggregator = (Throw TypeError, new_Aggregator).
Proof. by repeat split. Qed.

(** ** Aggregator: the run's duration *)

Lemma run_snoc evs ev w : run (evs ++ [ev]) w = emit (run evs w) ev.
Proof. unfold run. by rewrite fold_left_app. Qed.

(** Only 'start' writes [_start] and only 'end' writes [_end]. *)
Lemma emit_start_end w now e :
  _start (self (emit w (now, e)))
  = match e with RunStart => Some (new_Date now) | _ => _start (self w) end
  ∧ _end (self (emit w (now, e)))
    = match e with RunEnd => Some (new_Date now) | _ => _end (self w) end.
Proof.
  destruct e; run_handler; repeat case_match; simplify_eq/=; done.
Qed.

Lemma run_start_end evs :
  _start (self (run evs new_Aggregator)) = new_Date <$> last_RunStart evs
  ∧ _end (self (run evs new_Aggregator)) = new_Date <$> last_RunEnd evs.
Proof.
  induction evs as [|[now e] evs [IHs IHe]] using rev_ind; [done|].
  rewrite run_snoc. destruct (emit_start_end (run evs new_Aggregator) now e)
    as [-> ->].
  unfold last_RunStart, last_RunEnd. rewrite !fold_left_app. simpl.
  fold (last_RunStart evs). fold (last_RunEnd evs).
  rewrite IHs, IHe. by destruct e.
Qed.

(** C4.  After any sequence of events on a new Aggregator,
    [getTotalDuration] returns [null] when no 'end' event is among them;
    otherwise it returns [_end - _start], the clock reading of the last
    'end' event minus that of the last 'start' event ([NaN] when 'end' came
    without any 'start', [_start] being undefined then). *)
Theorem getTotalDuration_spec (evs : list (Z * Event)) :
  getTotalDuration (run evs new_Aggregator)
  = match last_RunEnd evs with
    | None => None
    | Some runEnd =>
        Some match last_RunStart evs with
             | Some runStart => Num (runEnd - runStart)
             | None => NaN
             end
    end.
Proof.
  unfold getTotalDuration. destruct (run_start_end evs) as [-> ->].
  destruct (last_RunEnd evs), (last_RunStart evs); done.
Qed.

(** ** Aggregator: the records handed out *)

(** C9, as the code has it.  [getTestData] and [getSuiteData] change
    nothing themselves, and what they return for a uid with a record is
    that record itself, not a copy: when the consumer calls
    [setTerminalState] with a recognised state, or [setEndTime] with a
    date, on the value returned, it is the Aggregator's record for the uid
    that holds the new state or end afterwards. *)
Theorem queries_return_the_record (w : World) (k : string) (l : loc) (d : Data) :
  heap w !! l = Some d →
  (Dict_lookup (_tests (self w)) k = Some l →
     getTestData k w = (Return (IsData l), w)
     ∧ ∀ state, recognised state →
         let w' := consumer_calls (IsData l) (λ r, setTerminalState r state) w in
         Dict_lookup (_tests (self w')) k = Some l
         ∧ heap w' !! l = Some (with_terminalState state d))
  ∧ (Dict_lookup (_suites (self w)) k = Some l →
     getSuiteData k w = (Return (IsData l), w)
     ∧ ∀ t,
         let w' := consumer_calls (IsData l) (λ r, setEndTime r (VDate t)) w in
         Dict_lookup (_suites (self w')) k = Some l
         ∧ heap w' !! l = Some (with_end t d)).
Proof.
  intros Hd. split; intros Hk.
  - split; [by apply getTestData_present|].
    intros state Hr. unfold consumer_calls, call.
    rewrite setTerminalState_recognised by done. simpl.
    by rewrite lookup_alter_eq, Hd.
  - split; [by apply getSuiteData_present|].
    intros t. unfold consumer_calls, call. simpl.
    by rewrite lookup_alter_eq, Hd.
Qed.

Lemma queries_return_the_record_witness :
  getTestData "t1"
    (mkWorld {[ 1%positive := new_Data (new_Date 0) ]}
       (mkAggregator (mkDict ∅ None) (mkDict {[ "t1" := 1%positive ]} None)
                     None None) false)
  = (Return (IsData 1%positive),
     mkWorld {[ 1%positive := new_Data (new_Date 0) ]}
       (mkAggregator (mkDict ∅ None) (mkDict {[ "t1" := 1%positive ]} None)
                     None None) false).
Proof.
  destruct (queries_return_the_record
              (mkWorld {[ 1%positive := new_Data (new_Date 0) ]}
                 (mkAggregator (mkDict ∅ None)
                               (mkDict {[ "t1" := 1%positive ]} None)
                               None None) false)
              "t1" 1%positive (new_Data (new_Date 0))
              (lookup_singleton_eq _ _)) as [H _].
  exact (proj1 (H eq_refl)).
Defined.

(** C9, as the claim states it, fails: after the single event 'test' for
    't1', [getTestData('t1')] returns a value that is not read-only; the
    consumer's call of [setTerminalState('error')] on it changes the
    Aggregator's record, which answered [getIsError()] with false before
    and answers true afterwards. *)
Lemma getTestData_handle_not_read_only :
  ∃ l d d',
    let w := run [(1, Test "t1")] new_Aggregator in
    let w' := consumer_calls (IsData l)
                (invoke (CallSetTerminalState (VString ERROR))) w in
    getTestData "t1" w = (Return (IsData l), w)
    ∧ ¬ read_only w (IsData l)
    ∧ heap w !! l = Some d ∧ getIsError d = false
    ∧ getTestData "t1" w' = (Return (IsData l), w')
    ∧ heap w' !! l = Some d' ∧ getIsError d' = true.
Proof.
  exists 1%positive, (new_Data (new_Date 1)),
         (with_terminalState (VString ERROR) (new_Data (new_Date 1))).
  cbv zeta. split; [by vm_compute|]. split.
  - intros H. specialize (H (CallSetTerminalState (VString ERROR))).
    apply (f_equal (λ w, terminalState <$> heap w !! 1%positive)) in H.
    vm_compute in H. discriminate H.
  - by vm_compute.
Qed.

(** ** Aggregator: the outcome of a test *)

Lemma flags_depend_on_terminalState d d' :
  terminalState d' = terminalState d →
  (no_outcome d → no_outcome d') ∧ (one_outcome d → one_outcome d').
Proof.
  unfold no_outcome, one_outcome, getIsError, getIsSkip, getIsSuccess.
  by intros ->.
Qed.

Lemma no_outcome_new_Data t : no_outcome (new_Data t).
Proof. by repeat split. Qed.

(** Only 'test' writes the tests dictionary, and it stores a new record. *)
Lemma emit_tests w now e k :
  Dict_lookup (_tests (self (emit w (now, e)))) k
  = match e with
    | Test k' =>
        if decide (k' = k) then Some (fresh (dom (heap w)))
        else Dict_lookup (_tests (self w)) k
    | _ => Dict_lookup (_tests (self w)) k
    end.
Proof.
  destruct e; run_handler; try (repeat case_match; simplify_eq/=; done).
  cbn [self set_self set_heap with_tests _tests]. apply Dict_lookup_set.
Qed.

(** The outcome events write the terminal state of the record the tests
    dictionary holds for the uid, if it holds one, and nothing else. *)
Lemma emit_outcome w now e k state :
  (e = Pass k ∧ state = VString SUCCESS)
  ∨ (e = Fail k ∧ state = VString ERROR)
  ∨ (e = Pending k ∧ state = VString SKIP) →
  heap (emit w (now, e))
  = match Dict_lookup (_tests (self w)) k with
    | Some l => alter (with_terminalState state) l (heap w)
    | None => heap w
    end.
Proof.
  intros He.
  destruct (Dict_lookup (_tests (self w)) k) as [l|] eqn:Hk.
  - apply (Dict_get_IsData w) in Hk.
    destruct He as [[-> ->] | [[-> ->] | [-> ->]]]; run_handler; by rewrite Hk.
  - assert (∀ l, Dict_get w (_tests (self w)) k ≠ IsData l) as Hn.
    { intros l E%Dict_get_IsData. congruence. }
    destruct He as [[-> ->] | [[-> ->] | [-> ->]]]; run_handler;
      destruct (Dict_get w (_tests (self w)) k) as [l| |[]]; try done;
      by destruct (Hn l).
Qed.

(** The other events keep every record and its terminal state. *)
Lemma emit_keeps_terminalState w now e l d :
  is_outcome e = false →
  heap w !! l = Some d →
  ∃ d', heap (emit w (now, e)) !! l = Some d'
        ∧ terminalState d' = terminalState d.
Proof.
  intros He Hd.
  assert (l ≠ fresh (dom (heap w))) as Hfresh.
  { intros ->. apply (is_fresh (dom (heap w))). by apply elem_of_dom. }
  assert (∀ f l', (∀ x, terminalState (f x) = terminalState x) →
            ∃ d', alter f l' (heap w) !! l = Some d'
                  ∧ terminalState d' = terminalState d) as Halter.
  { intros f l' Hf. destruct (decide (l' = l)) as [->|].
    - rewrite lookup_alter_eq, Hd. simpl. eauto.
    - rewrite lookup_alter_ne by done. eauto. }
  destruct e; try done; run_handler;
    repeat case_match; simplify_eq/=;
    rewrite ?lookup_insert_ne by done; eauto.
  rewrite alter_alter_eq. by apply Halter.
Qed.

(** A record that appears with an event that is no outcome is the record
    just constructed by 'suite' or 'test'. *)
Lemma emit_new_record w now e l d' :
  is_outcome e = false →
  heap w !! l = None →
  heap (emit w (now, e)) !! l = Some d' →
  l = fresh (dom (heap w)) ∧ d' = new_Data (new_Date now).
Proof.
  intros He Hl.
  destruct e; try done; run_handler;
    repeat case_match; simplify_eq/=;
    rewrite ?alter_alter_eq; try congruence; intros H.
  all: try (apply lookup_insert_Some in H as [[<- <-] | [_ H]];
            [done | congruence]).
  all: apply mk_is_Some, lookup_alter_is_Some in H; destruct H; congruence.
Qed.

Lemma settled_snoc evs ev k :
  settled (evs ++ [ev]) k = settle k (settled evs k) ev.
Proof. unfold settled. by rewrite fold_left_app. Qed.

(** What holds of the tests dictionary after any sequence of events: its
    records are in the heap, no record is held under two uids, and the
    flags of each record tell whether an outcome event has reached it. *)
Lemma run_tests_invariant evs :
  let w := run evs new_Aggregator in
  (∀ k l, Dict_lookup (_tests (self w)) k = Some l → is_Some (heap w !! l))
  ∧ (∀ k k' l, Dict_lookup (_tests (self w)) k = Some l →
               Dict_lookup (_tests (self w)) k' = Some l → k = k')
  ∧ (∀ k l d, Dict_lookup (_tests (self w)) k = Some l →
              heap w !! l = Some d →
              if settled evs k then one_outcome d else no_outcome d).
Proof.
  induction evs as [|[now e] evs IH] using rev_ind.
  { cbn. repeat split; intros; simplify_eq/=.
    all: match goal with H : Dict_lookup _ _ = Some _ |- _ =>
           unfold Dict_lookup in H; by case_match end. }
  cbv zeta in *. rewrite run_snoc. set (w := run evs new_Aggregator) in *.
  destruct IH as (I1 & I2 & I3).
  assert (∀ k l, Dict_lookup (_tests (self w)) k = Some l →
                 l ≠ fresh (dom (heap w))) as Hfresh.
  { intros k l Hk ->. apply (is_fresh (dom (heap w))).
    apply elem_of_dom. eauto. }
  destruct (is_outcome e) eqn:Hother.
  2: {
    (* an event that is no outcome *)
    assert (∀ l d', heap w !! l = None → heap (emit w (now, e)) !! l = Some d' →
              l = fresh (dom (heap w)) ∧ no_outcome d') as Hnew.
    { intros l d' Hl Hd'.
      destruct (emit_new_record w now e l d' Hother Hl Hd') as [-> ->].
      auto using no_outcome_new_Data. }
    repeat split.
    + intros k l. rewrite emit_tests. intros Hk.
      assert (l = fresh (dom (heap w)) ∧ (∃ k', e = Test k')
              ∨ Dict_lookup (_tests (self w)) k = Some l) as [[-> [k' ->]] | Hold].
      { destruct e; auto. case_decide; simplify_eq; eauto. }
      * run_handler. simpl. rewrite lookup_insert_eq. eauto.
      * destruct (I1 _ _ Hold) as [d Hd].
        destruct (emit_keeps_terminalState w now e l d Hother Hd) as (d' & -> & _).
        eauto.
    + intros k k' l. rewrite !emit_tests.
      destruct e; eauto. repeat case_decide; simplify_eq; eauto.
      * intros [= <-] Hk'. by destruct (Hfresh _ _ Hk').
      * intros Hk [= <-]. by destruct (Hfresh _ _ Hk).
    + intros k l d'. rewrite emit_tests, settled_snoc. intros Hk Hd'.
      destruct (heap w !! l) as [d|] eqn:Hd.
      * destruct (emit_keeps_terminalState w now e l d Hother Hd) as (d'' & Hd'' & E).
        assert (d'' = d') as -> by congruence.
        assert (Dict_lookup (_tests (self w)) k = Some l
                ∧ settle k (settled evs k) (now, e) = settled evs k) as [Hold ->].
        { destruct e; try done. unfold settle. simpl.
          case_decide; simplify_eq.
          - apply elem_of_dom_2 in Hd. by destruct (is_fresh (dom (heap w))).
          - split; [done|]. by rewrite (proj2 (String.eqb_neq _ _)). }
        specialize (I3 _ _ _ Hold Hd).
        destruct (flags_depend_on_terminalState d d' E).
        destruct (settled evs k); auto.
      * destruct (Hnew _ _ Hd Hd') as [-> Hno].
        assert (e = Test k) as ->.
        { destruct e; try (by destruct (Hfresh _ _ Hk)).
          case_decide; [congruence | by destruct (Hfresh _ _ Hk)]. }
        unfold settle. simpl. by rewrite String.eqb_refl. }
  (* an outcome event *)
  { assert (∃ k0 state, recognised state ∧
              ((e = Pass k0 ∧ state = VString SUCCESS)
               ∨ (e = Fail k0 ∧ state = VString ERROR)
               ∨ (e = Pending k0 ∧ state = VString SKIP))) as (k0 & state & Hr & He).
    { unfold recognised. destruct e; try discriminate Hother; eauto 10. }
    pose proof (emit_outcome w now e k0 state He) as Hheap.
    assert (∀ k, Dict_lookup (_tests (self (emit w (now, e)))) k
                 = Dict_lookup (_tests (self w)) k) as Htests.
    { intros k. rewrite emit_tests. by destruct e. }
    assert (∀ k, settle k (settled evs k) (now, e)
                 = if decide (k0 = k) then true else settled evs k) as Hsettle.
    { intros k. unfold settle. simpl.
      destruct He as [[-> _] | [[-> _] | [-> _]]];
        destruct (String.eqb_spec k0 k); by case_decide. }
    repeat split.
    + intros k l. rewrite Htests, Hheap. intros [d Hd]%I1.
      destruct (Dict_lookup (_tests (self w)) k0) as [l0|]; [|eauto].
      destruct (decide (l0 = l)) as [->|].
      * rewrite lookup_alter_eq, Hd. eauto.
      * rewrite lookup_alter_ne by done. eauto.
    + intros k k' l. rewrite !Htests. apply I2.
    + intros k l d'. rewrite Htests, settled_snoc, Hsettle, Hheap. intros Hk.
      destruct (Dict_lookup (_tests (self w)) k0) as [l0|] eqn:Hk0.
      * destruct (decide (l0 = l)) as [->|Hne].
        -- rewrite (I2 _ _ _ Hk0 Hk), decide_True by done.
           rewrite lookup_alter_eq. destruct (heap w !! l); intros; simplify_eq/=.
           by apply one_outcome_with_terminalState.
        -- rewrite lookup_alter_ne by done. rewrite decide_False by congruence.
           by apply I3.
      * rewrite decide_False by congruence. by apply I3. }
Qed.

(** C3.  After any sequence of events on a new Aggregator, take any record
    the tests dictionary holds, under uid [k].  If no 'pass', 'fail' or
    'pending' event for [k] has come since the 'test' event that created
    the record, [getIsError], [getIsSkip] and [getIsSuccess] are all false
    on it; if one has, exactly one of the three is true. *)
Theorem outcome_flags (evs : list (Z * Event)) (k : string) (l : loc) (d : Data) :
  Dict_lookup (_tests (self (run evs new_Aggregator))) k = Some l →
  heap (run evs new_Aggregator) !! l = Some d →
  (settled evs k = false → no_outcome d)
  ∧ (settled evs k = true → one_outcome d).
Proof.
  intros Hk Hd.
  destruct (run_tests_invariant evs) as (_ & _ & I3).
  specialize (I3 k l d Hk Hd). split; intros E; by rewrite E in I3.
Qed.

Lemma outcome_flags_witness :
  one_outcome (with_terminalState (VString SUCCESS) (new_Data (new_Date 1)))
  ∧ no_outcome (new_Data (new_Date 1)).
Proof.
  split.
  - refine (proj2 (outcome_flags [(1, Test "t1"); (4, Pass "t1")] "t1"
                     1%positive _ _ _) _); by vm_compute.
  - refine (proj1 (outcome_flags [(1, Test "t1"); (2, TestEnd "t1")] "t1"
                     1%positive (with_end (new_Date 2) (new_Data (new_Date 1)))
                     _ _) _); by vm_compute.
Defined.

(** ** Scenarios *)

(** A suite with one passing test and one hook. *)
Example scenario_suite_test_hook :
  let w := run [ (0, Suite "s1"); (1, Test "t1");
                 (2, HookStart (mkHookPayload "h1" (Some "t1")));
                 (3, HookEnd (mkHookPayload "h1" (Some "t1")));
                 (3, Pass "t1"); (4, TestEnd "t1"); (5, SuiteEnd "s1") ]
               new_Aggregator in
  ∃ s t ds dt,
    getSuiteData "s1" w = (Return (IsData s), w) ∧ heap w !! s = Some ds
    ∧ getTestData "t1" w = (Return (IsData t), w) ∧ heap w !! t = Some dt
    ∧ getDuration dt = Return (Some (Num 3)) ∧ getIsSuccess dt = true
    ∧ getDuration ds = Return (Some (Num 5))
    ∧ hookOrder dt = ["h1"]
    ∧ entry (Hooks_get false (hooks dt) "h1")
      = Some (mkHook (new_Date 2) (Some (new_Date 3))).
Proof.
  exists 1%positive, 2%positive. eexists _, _. cbv zeta.
  repeat split; by vm_compute.
Qed.

(** Hooks started as h1, h2 and ended as h2, h1. *)
Example scenario_hook_order :
  let w := run [ (1, Test "t1");
                 (2, HookStart (mkHookPayload "h1" (Some "t1")));
                 (3, HookStart (mkHookPayload "h2" (Some "t1")));
                 (4, HookEnd (mkHookPayload "h2" (Some "t1")));
                 (5, HookEnd (mkHookPayload "h1" (Some "t1"))) ]
               new_Aggregator in
  ∃ dt,
    heap w !! 1%positive = Some dt
    ∧ hookOrder dt = ["h1"; "h2"]
    ∧ entry (Hooks_get false (hooks dt) "h1")
      = Some (mkHook (new_Date 2) (Some (new_Date 5)))
    ∧ entry (Hooks_get false (hooks dt) "h2")
      = Some (mkHook (new_Date 3) (Some (new_Date 4))).
Proof. eexists. cbv zeta. repeat split; by vm_compute. Qed.

(** A 'fail' for a uid never announced leaves no record behind. *)
Example scenario_orphan_fail :
  let w := run [ (1, Fail "unknown") ] new_Aggregator in
  w = new_Aggregator
  ∧ getTestData "unknown" w = (Throw (Error "uid is invalid for tests"), w).
Proof. by vm_compute. Qed.

(** ** Further properties of the handlers *)

Lemma Dict_get_not_IsData w o k :
  Dict_lookup o k = None → ∀ l, Dict_get w o k ≠ IsData l.
Proof. intros H l E%Dict_get_IsData. congruence. Qed.

(** What each handler does to the world, by the record the dictionary
    holds for the uid. *)
Lemma emit_Test w now k :
  on now (Test k) w
  = (Return tt,
     set_self (with_tests (Dict_set k (fresh (dom (heap w)))))
       (set_heap (insert (fresh (dom (heap w))) (new_Data (new_Date now))) w)).
Proof. reflexivity. Qed.

Lemma emit_Suite w now k :
  on now (Suite k) w
  = (Return tt,
     set_self (with_suites (Dict_set k (fresh (dom (heap w)))))
       (set_heap (insert (fresh (dom (heap w))) (new_Data (new_Date now))) w)).
Proof. reflexivity. Qed.

Lemma on_TestEnd w now k :
  on now (TestEnd k) w
  = match Dict_lookup (_tests (self w)) k with
    | Some l => (Return tt, set_heap (alter (with_end (new_Date now)) l) w)
    | None => (Throw TypeError, w)
    end.
Proof.
  destruct (Dict_lookup (_tests (self w)) k) as [l|] eqn:Hk; run_handler.
  - apply (Dict_get_IsData w) in Hk. by rewrite Hk.
  - pose proof (Dict_get_not_IsData w _ _ Hk) as Hn.
    destruct (Dict_get w (_tests (self w)) k); [by destruct (Hn l) | done..].
Qed.

Lemma on_SuiteEnd w now k :
  on now (SuiteEnd k) w
  = match Dict_lookup (_suites (self w)) k with
    | Some l => (Return tt, set_heap (alter (with_end (new_Date now)) l) w)
    | None => (Throw TypeError, w)
    end.
Proof.
  destruct (Dict_lookup (_suites (self w)) k) as [l|] eqn:Hk; run_handler.
  - apply (Dict_get_IsData w) in Hk. by rewrite Hk.
  - pose proof (Dict_get_not_IsData w _ _ Hk) as Hn.
    destruct (Dict_get w (_suites (self w)) k); [by destruct (Hn l) | done..].
Qed.

Lemma emit_outcome_world w now e k state :
  (e = Pass k ∧ state = VString SUCCESS)
  ∨ (e = Fail k ∧ state = VString ERROR)
  ∨ (e = Pending k ∧ state = VString SKIP) →
  emit w (now, e)
  = match Dict_lookup (_tests (self w)) k with
    | Some l => set_heap (alter (with_terminalState state) l) w
    | None => w
    end.
Proof.
  intros He.
  destruct (Dict_lookup (_tests (self w)) k) as [l|] eqn:Hk.
  - apply (Dict_get_IsData w) in Hk.
    destruct He as [[-> ->] | [[-> ->] | [-> ->]]]; run_handler; by rewrite Hk.
  - pose proof (Dict_get_not_IsData w _ _ Hk) as Hn.
    destruct He as [[-> ->] | [[-> ->] | [-> ->]]]; run_handler;
      destruct (Dict_get w (_tests (self w)) k) as [l| |[]]; try done;
      by destruct (Hn l).
Qed.

(** X1.  A handler that throws has changed nothing, and what it throws is
    a TypeError: the errors of [setEndTime] and [setTerminalState] never
    come out of a handler, which passes them a date and one of the three
    constants. *)
Theorem handler_throw_changes_nothing (w w' : World) (now : Z) (e : Event) (ex : exn) :
  on now e w = (Throw ex, w') → ex = TypeError ∧ w' = w.
Proof.
  destruct e; run_handler; repeat case_match; simplify_eq/=; try done;
    intros; simplify_eq/=; done.
Qed.

Lemma handler_throw_changes_nothing_witness :
  TypeError = TypeError ∧ new_Aggregator = new_Aggregator.
Proof.
  exact (handler_throw_changes_nothing new_Aggregator new_Aggregator 3
           (TestEnd "t1") TypeError eq_refl).
Defined.

(** X2.  'test end' for a uid the tests dictionary holds a record for
    returns normally and sets the end of that record to the clock reading;
    the record keeps its start, hooks, hook order and terminal state, its
    duration becomes end minus start, and an end set before is replaced.
    For a uid without a record the handler throws a TypeError. *)
Theorem on_TestEnd_spec (w : World) (now : Z) (k : string) :
  (∀ l d, Dict_lookup (_tests (self w)) k = Some l → heap w !! l = Some d →
     ∃ w', on now (TestEnd k) w = (Return tt, w')
           ∧ heap w' !! l = Some (with_end (new_Date now) d)
           ∧ getDuration (with_end (new_Date now) d)
             = Return (Some (minus (Num now) (getTime (start d))))
           ∧ (∀ l', l' ≠ l → heap w' !! l' = heap w !! l')
           ∧ self w' = self w)
  ∧ (Dict_lookup (_tests (self w)) k = None →
     on now (TestEnd k) w = (Throw TypeError, w)).
Proof.
  rewrite on_TestEnd. split.
  - intros l d -> Hd. eexists. split; [reflexivity|]. simpl.
    rewrite lookup_alter_eq, Hd. repeat split.
    intros l' Hl. by rewrite lookup_alter_ne.
  - by intros ->.
Qed.

Lemma on_TestEnd_spec_witness :
  on 3 (TestEnd "t1") new_Aggregator = (Throw TypeError, new_Aggregator).
Proof. exact (proj2 (on_TestEnd_spec new_Aggregator 3 "t1") eq_refl). Defined.

(** X3.  'suite end' does the same on the suites dictionary. *)
Theorem on_SuiteEnd_spec (w : World) (now : Z) (k : string) :
  (∀ l d, Dict_lookup (_suites (self w)) k = Some l → heap w !! l = Some d →
     ∃ w', on now (SuiteEnd k) w = (Return tt, w')
           ∧ heap w' !! l = Some (with_end (new_Date now) d)
           ∧ getDuration (with_end (new_Date now) d)
             = Return (Some (minus (Num now) (getTime (start d))))
           ∧ (∀ l', l' ≠ l → heap w' !! l' = heap w !! l')
           ∧ self w' = self w)
  ∧ (Dict_lookup (_suites (self w)) k = None →
     on now (SuiteEnd k) w = (Throw TypeError, w)).
Proof.
  rewrite on_SuiteEnd. split.
  - intros l d -> Hd. eexists. split; [reflexivity|]. simpl.
    rewrite lookup_alter_eq, Hd. repeat split.
    intros l' Hl. by rewrite lookup_alter_ne.
  - by intros ->.
Qed.

Lemma on_SuiteEnd_spec_witness :
  on 3 (SuiteEnd "s1") new_Aggregator = (Throw TypeError, new_Aggregator).
Proof. exact (proj2 (on_SuiteEnd_spec new_Aggregator 3 "s1") eq_refl). Defined.

Lemma Dict_lookup_set_eq k l o : Dict_lookup (Dict_set k l o) k = Some l.
Proof. rewrite Dict_lookup_set. by case_decide. Qed.

Lemma Dict_lookup_set_ne k k' l o :
  k ≠ k' → Dict_lookup (Dict_set k l o) k' = Dict_lookup o k'.
Proof. intros. rewrite Dict_lookup_set. by case_decide. Qed.

Lemma fresh_record_absent w : heap w !! fresh (dom (heap w)) = None.
Proof. apply not_elem_of_dom, is_fresh. Qed.

(** X4.  'test' for any uid, in any state, returns normally and constructs
    a record that was not in the heap before: [getTestData] of the uid
    then returns this record, which starts at the clock reading and has no
    end, no duration, no hooks and no outcome.  The records already there
    are untouched (one held for the same uid before is merely no longer
    the one the dictionary holds), the other uids keep their records, and
    the suites dictionary is as before. *)
Theorem on_Test_spec (w : World) (now : Z) (k : string) :
  ∃ l w',
    on now (Test k) w = (Return tt, w')
    ∧ heap w !! l = None
    ∧ getTestData k w' = (Return (IsData l), w')
    ∧ heap w' !! l = Some (new_Data (new_Date now))
    ∧ getDuration (new_Data (new_Date now)) = Return None
    ∧ no_outcome (new_Data (new_Date now))
    ∧ (∀ l', l' ≠ l → heap w' !! l' = heap w !! l')
    ∧ (∀ k', k' ≠ k →
         Dict_lookup (_tests (self w')) k' = Dict_lookup (_tests (self w)) k')
    ∧ _suites (self w') = _suites (self w).
Proof.
  exists (fresh (dom (heap w))). eexists. rewrite emit_Test.
  split; [reflexivity|]. split; [apply fresh_record_absent|].
  split; [apply getTestData_present; simpl; apply Dict_lookup_set_eq|].
  simpl. split; [apply lookup_insert_eq|]. split; [done|].
  split; [apply no_outcome_new_Data|].
  split; [intros l' Hl; by rewrite lookup_insert_ne|].
  split; [|done]. intros k' Hk. by apply Dict_lookup_set_ne.
Qed.

(** X5.  'suite' does the same on the suites dictionary, and leaves the
    tests dictionary as it was. *)
Theorem on_Suite_spec (w : World) (now : Z) (k : string) :
  ∃ l w',
    on now (Suite k) w = (Return tt, w')
    ∧ heap w !! l = None
    ∧ getSuiteData k w' = (Return (IsData l), w')
    ∧ heap w' !! l = Some (new_Data (new_Date now))
    ∧ getDuration (new_Data (new_Date now)) = Return None
    ∧ (∀ l', l' ≠ l → heap w' !! l' = heap w !! l')
    ∧ (∀ k', k' ≠ k →
         Dict_lookup (_suites (self w')) k' = Dict_lookup (_suites (self w)) k')
    ∧ _tests (self w') = _tests (self w).
Proof.
  exists (fresh (dom (heap w))). eexists. rewrite emit_Suite.
  split; [reflexivity|]. split; [apply fresh_record_absent|].
  split; [apply getSuiteData_present; simpl; apply Dict_lookup_set_eq|].
  simpl. split; [apply lookup_insert_eq|]. split; [done|].
  split; [intros l' Hl; by rewrite lookup_insert_ne|].
  split; [|done]. intros k' Hk. by apply Dict_lookup_set_ne.
Qed.

(** X6.  The 'hook' and 'hook end' handlers do nothing for a hook without
    an owning test (no [ctx.currentTest] or an empty uid there); for an
    owning test without a record they throw a TypeError and change
    nothing; for an owning test with a record they are [addHookStart] and
    [addHookEnd] of the hook's uid on that record. *)
Theorem on_Hook_dispatch (w : World) (now : Z) (hook : HookPayload) :
  (owning_test hook = None →
     on now (HookStart hook) w = (Return tt, w)
     ∧ on now (HookEnd hook) w = (Return tt, w))
  ∧ (∀ t, owning_test hook = Some t →
       Dict_lookup (_tests (self w)) t = None →
       on now (HookStart hook) w = (Throw TypeError, w)
       ∧ on now (HookEnd hook) w = (Throw TypeError, w))
  ∧ (∀ t l, owning_test hook = Some t →
       Dict_lookup (_tests (self w)) t = Some l →
       on now (HookStart hook) w = addHookStart now l (uid hook) w
       ∧ on now (HookEnd hook) w = addHookEnd now l (uid hook) w).
Proof.
  split; [|split].
  - intros Ho. cbv [on]. by rewrite Ho.
  - intros t Ho Hk. cbv [on]. rewrite Ho.
    cbv [bind tests_get get_world ret call throw].
    pose proof (Dict_get_not_IsData w _ _ Hk) as Hn.
    destruct (Dict_get w (_tests (self w)) t); [by destruct (Hn l) | done..].
  - intros t l Ho Hk%(Dict_get_IsData w). cbv [on]. rewrite Ho.
    cbv [bind tests_get get_world ret call]. by rewrite Hk.
Qed.

Lemma on_Hook_dispatch_witness :
  on 2 (HookStart (mkHookPayload "h1" (Some ""))) new_Aggregator
  = (Return tt, new_Aggregator)
  ∧ on 2 (HookEnd (mkHookPayload "h1" (Some "t1"))) new_Aggregator
    = (Throw TypeError, new_Aggregator).
Proof.
  split.
  - exact (proj1 (proj1 (on_Hook_dispatch new_Aggregator 2
                           (mkHookPayload "h1" (Some ""))) eq_refl)).
  - exact (proj2 (proj1 (proj2 (on_Hook_dispatch new_Aggregator 2
                           (mkHookPayload "h1" (Some "t1"))))
                    "t1" eq_refl eq_refl)).
Defined.

(** ** Further properties of Data *)

Lemma addHookEnd_run now this k w d :
  heap w !! this = Some d →
  addHookEnd now this k w
  = match Hooks_get (Object_prototype_end w) (hooks d) k with
    | Missing => (Throw TypeError, w)
    | OwnEntry h =>
        (Return tt,
         set_heap (alter (with_hooks (λ hs,
           mkHooks (<[k := Hook_with_end (new_Date now) h]> (hooks_own hs))
                   (hooks_proto hs))) this) w)
    | ProtoEntry h =>
        (Return tt,
         set_heap (alter (with_hooks (λ hs,
           mkHooks (hooks_own hs) (Some (Hook_with_end (new_Date now) h))))
           this) w)
    | ObjectPrototype => (Return tt, set_Object_prototype_end true w)
    | OtherObject => (Return tt, w)
    end.
Proof.
  intros Hd. cbv [addHookEnd bind deref get_world]. rewrite Hd.
  by destruct (Hooks_get _ _ _).
Qed.

Lemma Hooks_get_entry polluted hs k h :
  entry (Hooks_get polluted hs k) = Some h →
  (k = "__proto__" ∧ hooks_proto hs = Some h
   ∧ Hooks_get polluted hs k = ProtoEntry h)
  ∨ (k ≠ "__proto__" ∧ hooks_own hs !! k = Some h
     ∧ Hooks_get polluted hs k = OwnEntry h).
Proof.
  unfold Hooks_get, Object_prototype_target.
  destruct (String.eqb_spec k "__proto__") as [->|Hk].
  - destruct (hooks_proto hs); simpl; intros; simplify_eq; auto.
  - destruct (hooks_own hs !! k) eqn:E; simpl.
    + intros; simplify_eq; auto.
    + repeat case_match; simpl; intros; simplify_eq.
Qed.

(** The entries other hook uids reach are those of the own properties and
    of the prototype. *)
Lemma entry_Hooks_get polluted hs k :
  entry (Hooks_get polluted hs k)
  = if String.eqb k "__proto__" then hooks_proto hs else hooks_own hs !! k.
Proof.
  unfold Hooks_get, Object_prototype_target.
  destruct (String.eqb k "__proto__").
  - by destruct (hooks_proto hs).
  - destruct (hooks_own hs !! k); [done|]. by repeat case_match.
Qed.

(** X7.  [addHookEnd] on a record, for a hook uid that reaches an entry of
    the record's hooks: the call returns normally, the entry keeps its
    start and has the clock reading as its end, the entries of the other
    hook uids are untouched, and the record keeps its hook order, start,
    end and terminal state.  For a hook uid that reaches nothing (a hook
    never started) the call throws a TypeError and changes nothing. *)
Theorem addHookEnd_spec (w : World) (this : loc) (d : Data) (now : Z) (hookUID : string) :
  heap w !! this = Some d →
  (∀ h, entry (Hooks_get (Object_prototype_end w) (hooks d) hookUID) = Some h →
     ∃ w' d',
       addHookEnd now this hookUID w = (Return tt, w')
       ∧ heap w' !! this = Some d'
       ∧ entry (Hooks_get (Object_prototype_end w') (hooks d') hookUID)
         = Some (mkHook (hook_start h) (Some (new_Date now)))
       ∧ (∀ k, k ≠ hookUID →
            entry (Hooks_get (Object_prototype_end w') (hooks d') k)
            = entry (Hooks_get (Object_prototype_end w) (hooks d) k))
       ∧ hookOrder d' = hookOrder d
       ∧ timing d' = timing d
       ∧ terminalState d' = terminalState d)
  ∧ (Hooks_get (Object_prototype_end w) (hooks d) hookUID = Missing →
     addHookEnd now this hookUID w = (Throw TypeError, w)).
Proof.
  intros Hd. rewrite (addHookEnd_run now this hookUID w d Hd). split.
  - intros h [(-> & Hp & ->) | (Hk & Ho & ->)]%Hooks_get_entry.
    + eexists _, _. split; [reflexivity|]. simpl.
      rewrite lookup_alter_eq, Hd. simpl. split; [reflexivity|].
      split; [by rewrite entry_Hooks_get|]. split; [|done].
      intros k Hne. rewrite !entry_Hooks_get.
      by rewrite (proj2 (String.eqb_neq _ _) Hne).
    + eexists _, _. split; [reflexivity|]. simpl.
      rewrite lookup_alter_eq, Hd. simpl. split; [reflexivity|].
      split.
      { rewrite entry_Hooks_get. rewrite (proj2 (String.eqb_neq _ _) Hk).
        simpl. by rewrite lookup_insert_eq. }
      split; [|done].
      intros k Hne. rewrite !entry_Hooks_get. simpl.
      destruct (String.eqb k "__proto__"); [done|].
      by rewrite lookup_insert_ne.
  - by intros ->.
Qed.

Lemma addHookEnd_spec_witness :
  addHookEnd 4 1%positive "h9"
    (mkWorld {[ 1%positive := new_Data (new_Date 1) ]} (self new_Aggregator) false)
  = (Throw TypeError,
     mkWorld {[ 1%positive := new_Data (new_Date 1) ]} (self new_Aggregator) false).
Proof.
  exact (proj2 (addHookEnd_spec
                  (mkWorld {[ 1%positive := new_Data (new_Date 1) ]}
                           (self new_Aggregator) false)
                  1%positive (new_Data (new_Date 1)) 4 "h9"
                  (lookup_singleton_eq _ _)) eq_refl).
Defined.

Lemma Hooks_get_set_target polluted k h hs :
  Hooks_get polluted (Hooks_set k h hs) k
  = if String.eqb k "__proto__" then ProtoEntry h else OwnEntry h.
Proof.
  unfold Hooks_get, Hooks_set.
  destruct (String.eqb k "__proto__"); cbn [hooks_own hooks_proto]; [done|].
  by rewrite lookup_insert_eq.
Qed.

(** X8.  [addHookStart] followed by [addHookEnd] of the same hook uid on a
    record: both return normally, whatever the uid and whatever the hooks
    held before, and the uid then reaches the entry that starts at the
    first clock reading and ends at the second. *)
Theorem addHookStart_addHookEnd (w : World) (this : loc) (d : Data)
    (t1 t2 : Z) (hookUID : string) :
  heap w !! this = Some d →
  ∃ w1 w2 d2,
    addHookStart t1 this hookUID w = (Return tt, w1)
    ∧ addHookEnd t2 this hookUID w1 = (Return tt, w2)
    ∧ heap w2 !! this = Some d2
    ∧ entry (Hooks_get (Object_prototype_end w2) (hooks d2) hookUID)
      = Some (mkHook (new_Date t1) (Some (new_Date t2)))
    ∧ hookOrder d2 = hookOrder d ++ [hookUID].
Proof.
  intros Hd. rewrite addHookStart_run.
  set (d1 := push_hookOrder hookUID
               (with_hooks (Hooks_set hookUID (mkHook (new_Date t1) None)) d)).
  set (w1 := set_heap _ w).
  assert (heap w1 !! this = Some d1) as Hd1.
  { subst w1. simpl. by rewrite lookup_alter_eq, Hd. }
  pose proof (addHookEnd_run t2 this hookUID w1 d1 Hd1) as E2.
  subst d1. cbn [hooks push_hookOrder with_hooks] in E2.
  rewrite Hooks_get_set_target in E2.
  exists w1.
  destruct (String.eqb hookUID "__proto__") eqn:Ek;
    eexists _, _; (split; [reflexivity|]); (split; [exact E2|]);
    subst w1; simpl; rewrite !lookup_alter_eq, Hd; simpl;
    (split; [reflexivity|]);
    rewrite entry_Hooks_get, Ek; simpl; by rewrite ?lookup_insert_eq.
Qed.

Lemma addHookStart_addHookEnd_witness :
  ∃ w1 w2 d2,
    addHookStart 2 1%positive "h1"
      (mkWorld {[ 1%positive := new_Data (new_Date 1) ]} (self new_Aggregator) false)
    = (Return tt, w1)
    ∧ addHookEnd 5 1%positive "h1" w1 = (Return tt, w2)
    ∧ heap w2 !! 1%positive = Some d2
    ∧ entry (Hooks_get (Object_prototype_end w2) (hooks d2) "h1")
      = Some (mkHook (new_Date 2) (Some (new_Date 5)))
    ∧ hookOrder d2 = hookOrder (new_Data (new_Date 1)) ++ ["h1"].
Proof.
  exact (addHookStart_addHookEnd
           (mkWorld {[ 1%positive := new_Data (new_Date 1) ]}
                    (self new_Aggregator) false)
           1%positive (new_Data (new_Date 1)) 2 5 "h1" (lookup_singleton_eq _ _)).
Defined.

(** X9.  A call of a mutating method on a record, whatever the method, its
    arguments and its result, leaves the Aggregator's own fields and every
    other record as they were, never changes the record's start, and
    neither adds a record to the heap nor removes one. *)
Theorem method_call_frame (w : World) (this : loc) (c : MethodCall) :
  self (snd (invoke c this w)) = self w
  ∧ (∀ l, l ≠ this → heap (snd (invoke c this w)) !! l = heap w !! l)
  ∧ start <$> heap (snd (invoke c this w)) !! this = start <$> heap w !! this
  ∧ dom (heap (snd (invoke c this w))) = dom (heap w).
Proof.
  destruct c;
    cbv [invoke setTerminalState setEndTime addHookStart addHookEnd bind update
         modify deref get_world throw ret];
    repeat case_match; simplify_eq/=;
    rewrite ?alter_alter_eq, ?dom_alter_L, ?lookup_alter_eq;
    (split; [done|]); (split; [|split; [|done]]);
    try done;
    try (intros l Hl; by rewrite lookup_alter_ne);
    first [ by destruct (heap w !! this)
          | match goal with H : heap _ !! _ = _ |- _ => by rewrite H end ].
Qed.

(** X10.  [addHookEnd] for the hook uid '__proto__' on a record on which
    no hook '__proto__' has been started returns normally and changes no
    record: the read [hooks['__proto__']] yields [Object.prototype], and
    the write gives every object an inherited [end].  From then on a
    tests dictionary that holds no record for the uid 'end', and whose
    prototype no 'test' event for '__proto__' has replaced, still answers a
    read of it: [getTestData('end')] returns a value that is no record,
    where it threw the lookup error before, and a 'fail' event for 'end',
    ignored before, throws a TypeError. *)
Theorem addHookEnd_proto_reaches_Object_prototype
    (w : World) (this : loc) (d : Data) (now now' : Z) :
  heap w !! this = Some d →
  hooks_proto (hooks d) = None →
  own (_tests (self w)) !! "end" = None →
  proto (_tests (self w)) = None →
  Object_prototype_end w = false →
  ∃ w',
    addHookEnd now this "__proto__" w = (Return tt, w')
    ∧ heap w' = heap w ∧ self w' = self w
    ∧ getTestData "end" w = (Throw (Error "uid is invalid for tests"), w)
    ∧ getTestData "end" w' = (Return (IsOther true), w')
    ∧ on now' (Fail "end") w = (Return tt, w)
    ∧ on now' (Fail "end") w' = (Throw TypeError, w').
Proof.
  intros Hd Hp Ho Hpr Hpe.
  rewrite (addHookEnd_run now this "__proto__" w d Hd).
  unfold Hooks_get. simpl. rewrite Hp.
  eexists. split; [reflexivity|]. split; [done|]. split; [done|].
  cbv [getTestData on bind tests_get get_world ret call throw Dict_get].
  simpl. rewrite Ho, Hpr, Hpe. done.
Qed.

Lemma addHookEnd_proto_reaches_Object_prototype_witness :
  ∃ w',
    addHookEnd 3 1%positive "__proto__"
      (mkWorld {[ 1%positive := new_Data (new_Date 1) ]}
         (mkAggregator (mkDict ∅ None) (mkDict {[ "t1" := 1%positive ]} None)
                       None None) false)
    = (Return tt, w')
    ∧ getTestData "end" w' = (Return (IsOther true), w').
Proof.
  destruct (addHookEnd_proto_reaches_Object_prototype
              (mkWorld {[ 1%positive := new_Data (new_Date 1) ]}
                 (mkAggregator (mkDict ∅ None)
                               (mkDict {[ "t1" := 1%positive ]} None)
                               None None) false)
              1%positive (new_Data (new_Date 1)) 3 4
              (lookup_singleton_eq _ _) eq_refl ltac:(by vm_compute)
              eq_refl eq_refl)
    as (w' & H1 & _ & _ & _ & H2 & _).
  exists w'. split; [exact H1 | exact H2].
Defined.

(** ** Further properties of event sequences *)

(** Only 'suite' writes the suites dictionary, and it stores a new record. *)
Lemma emit_suites w now e k :
  Dict_lookup (_suites (self (emit w (now, e)))) k
  = match e with
    | Suite k' =>
        if decide (k' = k) then Some (fresh (dom (heap w)))
        else Dict_lookup (_suites (self w)) k
    | _ => Dict_lookup (_suites (self w)) k
    end.
Proof.
  destruct e; run_handler; try (repeat case_match; simplify_eq/=; done).
  cbn [self set_self set_heap with_suites _suites]. apply Dict_lookup_set.
Qed.

(** How each event moves the start and the end of the records. *)
Lemma emit_timing w now e l :
  timing <$> heap (emit w (now, e)) !! l
  = match e with
    | Suite _ | Test _ =>
        if decide (l = fresh (dom (heap w))) then Some (new_Date now, None)
        else timing <$> heap w !! l
    | SuiteEnd k =>
        if decide (Dict_lookup (_suites (self w)) k = Some l)
        then (λ d, (start d, Some (ADate (new_Date now)))) <$> heap w !! l
        else timing <$> heap w !! l
    | TestEnd k =>
        if decide (Dict_lookup (_tests (self w)) k = Some l)
        then (λ d, (start d, Some (ADate (new_Date now)))) <$> heap w !! l
        else timing <$> heap w !! l
    | _ => timing <$> heap w !! l
    end.
Proof.
  assert (∀ f l0, (∀ x, timing (f x) = timing x) →
            timing <$> alter f l0 (heap w) !! l = timing <$> heap w !! l) as Hkeep.
  { intros f l0 Hf. rewrite lookup_alter. case_decide; subst; [|done].
    destruct (heap w !! l); simpl; by rewrite ?Hf. }
  destruct e.
  - done.
  - done.
  - unfold emit. cbn [fst snd]. rewrite emit_Suite. simpl.
    case_decide; subst; by rewrite ?lookup_insert_eq, ?lookup_insert_ne.
  - unfold emit. cbn [fst snd]. rewrite on_SuiteEnd.
    destruct (Dict_lookup (_suites (self w)) uid0) as [l0|]; simpl.
    + rewrite lookup_alter. repeat case_decide; simplify_eq; try done.
      by destruct (heap w !! l).
    + repeat case_decide; simplify_eq; done.
  - unfold emit. cbn [fst snd]. rewrite emit_Test. simpl.
    case_decide; subst; by rewrite ?lookup_insert_eq, ?lookup_insert_ne.
  - unfold emit. cbn [fst snd]. rewrite on_TestEnd.
    destruct (Dict_lookup (_tests (self w)) uid0) as [l0|]; simpl.
    + rewrite lookup_alter. repeat case_decide; simplify_eq; try done.
      by destruct (heap w !! l).
    + repeat case_decide; simplify_eq; done.
  - run_handler. repeat case_match; simplify_eq/=; try done.
    rewrite alter_alter_eq. by apply Hkeep.
  - run_handler. repeat case_match; simplify_eq/=; try done; by apply Hkeep.
  - rewrite (emit_outcome_world w now (Pass uid0) uid0 (VString SUCCESS)) by auto.
    case_match; [by apply Hkeep | done].
  - rewrite (emit_outcome_world w now (Fail uid0) uid0 (VString ERROR)) by auto.
    case_match; [by apply Hkeep | done].
  - rewrite (emit_outcome_world w now (Pending uid0) uid0 (VString SKIP)) by auto.
    case_match; [by apply Hkeep | done].
Qed.

Lemma emit_heap_mono w ev l :
  is_Some (heap w !! l) → is_Some (heap (emit w ev) !! l).
Proof.
  destruct ev as [now e]. intros [d Hd].
  assert (l ≠ fresh (dom (heap w))) as Hfresh.
  { intros ->. by rewrite fresh_record_absent in Hd. }
  pose proof (emit_timing w now e l) as H. rewrite Hd in H. simpl in H.
  destruct (heap (emit w (now, e)) !! l); [eauto|].
  simpl in H. destruct e; repeat case_decide; simplify_eq.
Qed.

Lemma records_separate_emit w ev :
  records_separate w → records_separate (emit w ev).
Proof.
  destruct ev as [now e]. intros (T & S & TT & SS & TS).
  assert (∀ k l, Dict_lookup (_tests (self w)) k = Some l →
                 l ≠ fresh (dom (heap w))) as Tfresh.
  { intros k l [d Hd]%T ->. by rewrite fresh_record_absent in Hd. }
  assert (∀ k l, Dict_lookup (_suites (self w)) k = Some l →
                 l ≠ fresh (dom (heap w))) as Sfresh.
  { intros k l [d Hd]%S ->. by rewrite fresh_record_absent in Hd. }
  assert (is_Some (heap (emit w (now, e)) !! fresh (dom (heap w)))
          ∨ (∀ k, e ≠ Test k) ∧ (∀ k, e ≠ Suite k)) as Hnew.
  { destruct e; try (by right).
    - left. unfold emit. cbn [fst snd]. rewrite emit_Suite. simpl.
      rewrite lookup_insert_eq. eauto.
    - left. unfold emit. cbn [fst snd]. rewrite emit_Test. simpl.
      rewrite lookup_insert_eq. eauto. }
  unfold records_separate. repeat split.
  - intros k l. rewrite emit_tests.
    destruct e; try (intros Hk%T; by apply emit_heap_mono).
    case_decide; [|intros Hk%T; by apply emit_heap_mono].
    intros [= <-]. destruct Hnew as [?|[H' _]]; [done | by destruct (H' uid0)].
  - intros k l. rewrite emit_suites.
    destruct e; try (intros Hk%S; by apply emit_heap_mono).
    case_decide; [|intros Hk%S; by apply emit_heap_mono].
    intros [= <-]. destruct Hnew as [?|[_ H']]; [done | by destruct (H' uid0)].
  - intros k k' l. rewrite !emit_tests.
    destruct e; eauto. repeat case_decide; simplify_eq; eauto.
    + intros [= <-] Hk'. by destruct (Tfresh _ _ Hk').
    + intros Hk [= <-]. by destruct (Tfresh _ _ Hk).
  - intros k k' l. rewrite !emit_suites.
    destruct e; eauto. repeat case_decide; simplify_eq; eauto.
    + intros [= <-] Hk'. by destruct (Sfresh _ _ Hk').
    + intros Hk [= <-]. by destruct (Sfresh _ _ Hk).
  - intros k k' l. rewrite emit_tests, emit_suites.
    destruct e; eauto; case_decide; eauto.
    + intros Hk [= <-]. by destruct (Tfresh _ _ Hk).
    + intros [= <-] Hk'. by destruct (Sfresh _ _ Hk').
Qed.

Lemma run_records_separate_aux (evs : list (Z * Event)) :
  records_separate (run evs new_Aggregator).
Proof.
  induction evs as [|ev evs IH] using rev_ind.
  - repeat split; cbn; intros; simplify_eq/=;
      match goal with H : Dict_lookup _ _ = Some _ |- _ =>
        unfold Dict_lookup in H; by case_match end.
  - rewrite run_snoc. by apply records_separate_emit.
Qed.

(** X11.  After any sequence of events on a new Aggregator, every record
    that the tests or the suites dictionary holds is in the heap, and no
    record is held under two identifiers, whether two test uids, two suite
    uids, or a test uid and a suite uid: what an event does to the record
    of one identifier never shows under another. *)
Theorem run_records_separate (evs : list (Z * Event)) :
  records_separate (run evs new_Aggregator).
Proof.
  induction evs as [|ev evs IH] using rev_ind.
  - apply (run_records_separate_aux []).
  - rewrite run_snoc. by apply records_separate_emit.
Qed.

Lemma test_times_snoc evs ev k :
  test_times (evs ++ [ev]) k = test_clock k (test_times evs k) ev.
Proof. unfold test_times. by rewrite fold_left_app. Qed.

Lemma suite_times_snoc evs ev k :
  suite_times (evs ++ [ev]) k = suite_clock k (suite_times evs k) ev.
Proof. unfold suite_times. by rewrite fold_left_app. Qed.

Lemma run_test_timing evs k :
  match test_times evs k with
  | None => Dict_lookup (_tests (self (run evs new_Aggregator))) k = None
  | Some (s, e) =>
      ∃ l, Dict_lookup (_tests (self (run evs new_Aggregator))) k = Some l
           ∧ timing <$> heap (run evs new_Aggregator) !! l
             = Some (new_Date s, (λ t, ADate (new_Date t)) <$> e)
  end.
Proof.
  induction evs as [|[now ev] evs IH] using rev_ind.
  { cbn. unfold Dict_lookup. by case_match. }
  rewrite test_times_snoc, run_snoc.
  destruct (run_records_separate_aux evs) as (_ & _ & TT & _ & TS).
  set (w := run evs new_Aggregator) in *.
  assert (∀ l p, timing <$> heap w !! l = Some p → l ≠ fresh (dom (heap w)))
    as Hfresh.
  { intros l p H ->. by rewrite fresh_record_absent in H. }
  unfold test_clock. cbn [fst snd].
  destruct ev; try (rewrite emit_tests;
    destruct (test_times evs k) as [[s e]|]; [|done];
    destruct IH as (l & Hl & Ht); exists l; split; [done|];
    rewrite emit_timing; repeat case_decide; simplify_eq; try done;
    solve [ by destruct (Hfresh _ _ Ht) | by destruct (TS _ _ _ Hl H) ]).
  - (* 'test' *)
    rewrite emit_tests. destruct (String.eqb_spec uid0 k) as [->|Hne].
    + rewrite decide_True by done. eexists. split; [done|].
      rewrite emit_timing. by rewrite decide_True.
    + rewrite decide_False by done.
      destruct (test_times evs k) as [[s e]|]; [|done].
      destruct IH as (l & Hl & Ht). exists l. split; [done|].
      rewrite emit_timing. rewrite decide_False; [done|]. by eapply Hfresh.
  - (* 'test end' *)
    rewrite emit_tests. destruct (String.eqb_spec uid0 k) as [->|Hne].
    + destruct (test_times evs k) as [[s e]|]; [|done].
      destruct IH as (l & Hl & Ht). exists l. split; [done|].
      rewrite emit_timing. rewrite decide_True by done.
      destruct (heap w !! l) as [d|]; [|done].
      unfold timing in *. simpl in *. simplify_eq. congruence.
    + destruct (test_times evs k) as [[s e]|]; [|done].
      destruct IH as (l & Hl & Ht). exists l. split; [done|].
      rewrite emit_timing. rewrite decide_False; [done|].
      intros Hk0. by destruct Hne; eapply TT.
Qed.

Lemma run_suite_timing evs k :
  match suite_times evs k with
  | None => Dict_lookup (_suites (self (run evs new_Aggregator))) k = None
  | Some (s, e) =>
      ∃ l, Dict_lookup (_suites (self (run evs new_Aggregator))) k = Some l
           ∧ timing <$> heap (run evs new_Aggregator) !! l
             = Some (new_Date s, (λ t, ADate (new_Date t)) <$> e)
  end.
Proof.
  induction evs as [|[now ev] evs IH] using rev_ind.
  { cbn. unfold Dict_lookup. by case_match. }
  rewrite suite_times_snoc, run_snoc.
  destruct (run_records_separate_aux evs) as (_ & _ & _ & SS & TS).
  set (w := run evs new_Aggregator) in *.
  assert (∀ l p, timing <$> heap w !! l = Some p → l ≠ fresh (dom (heap w)))
    as Hfresh.
  { intros l p H ->. by rewrite fresh_record_absent in H. }
  unfold suite_clock. cbn [fst snd].
  destruct ev; try (rewrite emit_suites;
    destruct (suite_times evs k) as [[s e]|]; [|done];
    destruct IH as (l & Hl & Ht); exists l; split; [done|];
    rewrite emit_timing; repeat case_decide; simplify_eq; try done;
    solve [ by destruct (Hfresh _ _ Ht) | by destruct (TS _ _ _ H Hl) ]).
  - (* 'suite' *)
    rewrite emit_suites. destruct (String.eqb_spec uid0 k) as [->|Hne].
    + rewrite decide_True by done. eexists. split; [done|].
      rewrite emit_timing. by rewrite decide_True.
    + rewrite decide_False by done.
      destruct (suite_times evs k) as [[s e]|]; [|done].
      destruct IH as (l & Hl & Ht). exists l. split; [done|].
      rewrite emit_timing. rewrite decide_False; [done|]. by eapply Hfresh.
  - (* 'suite end' *)
    rewrite emit_suites. destruct (String.eqb_spec uid0 k) as [->|Hne].
    + destruct (suite_times evs k) as [[s e]|]; [|done].
      destruct IH as (l & Hl & Ht). exists l. split; [done|].
      rewrite emit_timing. rewrite decide_True by done.
      destruct (heap w !! l) as [d|]; [|done].
      unfold timing in *. simpl in *. simplify_eq. congruence.
    + destruct (suite_times evs k) as [[s e]|]; [|done].
      destruct IH as (l & Hl & Ht). exists l. split; [done|].
      rewrite emit_timing. rewrite decide_False; [done|].
      intros Hk0. by destruct Hne; eapply SS.
Qed.

(** X12.  After any sequence of events on a new Aggregator, the tests
    dictionary holds a record for uid [k] exactly when a 'test' event for
    [k] is among them.  The record then starts at the clock reading of the
    last 'test' event for [k]; its end is that of the last 'test end'
    event for [k] since, and null when there was none, whatever events for
    suites, hooks, outcomes or other tests came in between; so
    [getDuration] is null until 'test end' and the difference of the two
    clock readings from then on. *)
Theorem test_record_timing (evs : list (Z * Event)) (k : string) :
  match test_times evs k with
  | None => Dict_lookup (_tests (self (run evs new_Aggregator))) k = None
  | Some (s, e) =>
      ∃ l d, Dict_lookup (_tests (self (run evs new_Aggregator))) k = Some l
             ∧ heap (run evs new_Aggregator) !! l = Some d
             ∧ start d = new_Date s
             ∧ end_ d = (λ t, ADate (new_Date t)) <$> e
             ∧ getDuration d = Return ((λ t, Num (t - s)) <$> e)
  end.
Proof.
  pose proof (run_test_timing evs k) as H.
  destruct (test_times evs k) as [[s e]|]; [|done].
  destruct H as (l & Hl & Ht).
  destruct (heap (run evs new_Aggregator) !! l) as [d|] eqn:Hd; [|done].
  exists l, d. unfold timing in Ht. simpl in Ht. simplify_eq.
  repeat split; try done. unfold getDuration.
  destruct e; simpl in *;
    match goal with H : end_ d = _ |- _ => rewrite H end;
    match goal with H : start d = _ |- _ => rewrite ?H end; done.
Qed.

(** X13.  The same for the suites dictionary, with 'suite' and 'suite
    end': the duration of a suite is the clock reading of its last 'suite
    end' minus that of the 'suite' event before it, and null between the
    two. *)
Theorem suite_record_timing (evs : list (Z * Event)) (k : string) :
  match suite_times evs k with
  | None => Dict_lookup (_suites (self (run evs new_Aggregator))) k = None
  | Some (s, e) =>
      ∃ l d, Dict_lookup (_suites (self (run evs new_Aggregator))) k = Some l
             ∧ heap (run evs new_Aggregator) !! l = Some d
             ∧ start d = new_Date s
             ∧ end_ d = (λ t, ADate (new_Date t)) <$> e
             ∧ getDuration d = Return ((λ t, Num (t - s)) <$> e)
  end.
Proof.
  pose proof (run_suite_timing evs k) as H.
  destruct (suite_times evs k) as [[s e]|]; [|done].
  destruct H as (l & Hl & Ht).
  destruct (heap (run evs new_Aggregator) !! l) as [d|] eqn:Hd; [|done].
  exists l, d. unfold timing in Ht. simpl in Ht. simplify_eq.
  repeat split; try done. unfold getDuration.
  destruct e; simpl in *;
    match goal with H : end_ d = _ |- _ => rewrite H end;
    match goal with H : start d = _ |- _ => rewrite ?H end; done.
Qed.

Lemma size_alter (f : Data → Data) (l : loc) (m : gmap loc Data) :
  size (alter f l m) = size m.
Proof. by rewrite <- !size_dom, dom_alter_L. Qed.

Lemma emit_heap_size w now e :
  size (heap (emit w (now, e)))
  = (size (heap w) + (if is_constructing e then 1 else 0))%nat.
Proof.
  destruct e; simpl;
    try (unfold emit; cbn [fst snd]; rewrite ?emit_Suite, ?emit_Test; simpl;
         rewrite map_size_insert_None by apply fresh_record_absent; lia);
    run_handler; repeat case_match; simplify_eq/=;
    rewrite ?alter_alter_eq, ?size_alter; lia.
Qed.

(** X14.  After any sequence of events on a new Aggregator the heap holds
    as many records as there were 'suite' and 'test' events: each of them
    constructs one record, also for a uid announced before, and no event
    ever removes a record. *)
Theorem run_heap_size (evs : list (Z * Event)) :
  size (heap (run evs new_Aggregator)) = constructions evs.
Proof.
  induction evs as [|[now e] evs IH] using rev_ind; [done|].
  rewrite run_snoc, emit_heap_size, IH.
  unfold constructions. rewrite filter_app, length_app. f_equal.
  rewrite filter_cons, filter_nil. simpl. by destruct e.
Qed.

(** X15.  An outcome event and a 'test end' event, for the same test or
    for different ones, commute: delivered in either order they leave the
    same world, so the outcome of a test may arrive before or after its
    end. *)
Theorem outcome_commutes_with_TestEnd (w : World) (t1 t2 : Z) (e : Event) (k : string) :
  is_outcome e = true →
  emit (emit w (t1, e)) (t2, TestEnd k) = emit (emit w (t2, TestEnd k)) (t1, e).
Proof.
  intros He.
  assert (∃ k0 state,
            (e = Pass k0 ∧ state = VString SUCCESS)
            ∨ (e = Fail k0 ∧ state = VString ERROR)
            ∨ (e = Pending k0 ∧ state = VString SKIP)) as (k0 & state & Hs).
  { destruct e; try discriminate He; eauto 10. }
  rewrite !(emit_outcome_world _ t1 e k0 state Hs), emit_tests.
  unfold emit. cbn [fst snd]. rewrite !on_TestEnd.
  destruct (Dict_lookup (_tests (self w)) k0) as [l0|] eqn:Hk0,
           (Dict_lookup (_tests (self w)) k) as [l|] eqn:Hk;
    simpl; rewrite ?Hk0, ?Hk; simpl; try done.
  unfold set_heap. simpl. f_equal.
  destruct (decide (l = l0)) as [->|Hne].
  - rewrite !alter_alter_eq. by apply alter_ext.
  - by apply alter_alter_ne.
Qed.

Lemma outcome_commutes_with_TestEnd_witness :
  emit (emit (run [(1, Test "t1")] new_Aggregator) (2, Pass "t1")) (3, TestEnd "t1")
  = emit (emit (run [(1, Test "t1")] new_Aggregator) (3, TestEnd "t1")) (2, Pass "t1").
Proof.
  exact (outcome_commutes_with_TestEnd (run [(1, Test "t1")] new_Aggregator)
           2 3 (Pass "t1") "t1" eq_refl).
Defined.

(** X16.  An outcome event for a uid the tests dictionary holds a record
    for returns normally and writes the terminal state of that record,
    'success' for 'pass', 'error' for 'fail' and 'skip' for 'pending', and
    nothing else: the record keeps its start, end, hooks and hook order,
    and the other records and the Aggregator's fields are as before. *)
Theorem on_outcome_spec (w : World) (now : Z) (e : Event) (k : string)
    (state : string) (l : loc) (d : Data) :
  (e = Pass k ∧ state = SUCCESS) ∨ (e = Fail k ∧ state = ERROR)
  ∨ (e = Pending k ∧ state = SKIP) →
  Dict_lookup (_tests (self w)) k = Some l →
  heap w !! l = Some d →
  ∃ w' d',
    on now e w = (Return tt, w')
    ∧ heap w' !! l = Some d'
    ∧ terminalState d' = VString state
    ∧ timing d' = timing d ∧ hooks d' = hooks d ∧ hookOrder d' = hookOrder d
    ∧ (∀ l', l' ≠ l → heap w' !! l' = heap w !! l')
    ∧ self w' = self w.
Proof.
  intros He Hk%(Dict_get_IsData w) Hd.
  exists (set_heap (alter (with_terminalState (VString state)) l) w),
         (with_terminalState (VString state) d).
  split.
  { destruct He as [[-> ->] | [[-> ->] | [-> ->]]]; run_handler; by rewrite Hk. }
  simpl. rewrite lookup_alter_eq, Hd. repeat split.
  intros l' Hl. by rewrite lookup_alter_ne.
Qed.

Lemma on_outcome_spec_witness :
  ∃ w' d',
    on 2 (Pending "t1")
      (mkWorld {[ 1%positive := new_Data (new_Date 1) ]}
         (mkAggregator (mkDict ∅ None) (mkDict {[ "t1" := 1%positive ]} None)
                       None None) false)
    = (Return tt, w')
    ∧ heap w' !! 1%positive = Some d'
    ∧ terminalState d' = VString "skip".
Proof.
  destruct (on_outcome_spec
              (mkWorld {[ 1%positive := new_Data (new_Date 1) ]}
                 (mkAggregator (mkDict ∅ None)
                               (mkDict {[ "t1" := 1%positive ]} None)
                               None None) false)
              2 (Pending "t1") "t1" SKIP 1%positive (new_Data (new_Date 1))
              (or_intror (or_intror (conj eq_refl eq_refl)))
              ltac:(by vm_compute) (lookup_singleton_eq _ _))
    as (w' & d' & H1 & H2 & H3 & _).
  exists w', d'. split; [exact H1|]. split; [exact H2 | exact H3].
Defined.

(** How each event moves the terminal state of the records. *)
Lemma emit_terminalState w now e l :
  terminalState <$> heap (emit w (now, e)) !! l
  = match e with
    | Suite _ | Test _ =>
        if decide (l = fresh (dom (heap w))) then Some VNull
        else terminalState <$> heap w !! l
    | Pass k =>
        if decide (Dict_lookup (_tests (self w)) k = Some l)
        then (λ _, VString SUCCESS) <$> heap w !! l
        else terminalState <$> heap w !! l
    | Fail k =>
        if decide (Dict_lookup (_tests (self w)) k = Some l)
        then (λ _, VString ERROR) <$> heap w !! l
        else terminalState <$> heap w !! l
    | Pending k =>
        if decide (Dict_lookup (_tests (self w)) k = Some l)
        then (λ _, VString SKIP) <$> heap w !! l
        else terminalState <$> heap w !! l
    | _ => terminalState <$> heap w !! l
    end.
Proof.
  assert (∀ f l0, (∀ x, terminalState (f x) = terminalState x) →
            terminalState <$> alter f l0 (heap w) !! l
            = terminalState <$> heap w !! l) as Hkeep.
  { intros f l0 Hf. rewrite lookup_alter. case_decide; subst; [|done].
    destruct (heap w !! l); simpl; by rewrite ?Hf. }
  assert (∀ e' k state,
            (e' = Pass k ∧ state = VString SUCCESS)
            ∨ (e' = Fail k ∧ state = VString ERROR)
            ∨ (e' = Pending k ∧ state = VString SKIP) →
            terminalState <$> heap (emit w (now, e')) !! l
            = if decide (Dict_lookup (_tests (self w)) k = Some l)
              then (λ _, state) <$> heap w !! l
              else terminalState <$> heap w !! l) as Hout.
  { intros e' k state He. rewrite (emit_outcome_world w now e' k state He).
    destruct (Dict_lookup (_tests (self w)) k) as [l0|]; simpl.
    - rewrite lookup_alter. repeat case_decide; simplify_eq; try done.
      by destruct (heap w !! l).
    - repeat case_decide; simplify_eq; done. }
  destruct e; try (by (apply Hout; auto)).
  - done.
  - done.
  - unfold emit. cbn [fst snd]. rewrite emit_Suite. simpl.
    case_decide; subst; by rewrite ?lookup_insert_eq, ?lookup_insert_ne.
  - unfold emit. cbn [fst snd]. rewrite on_SuiteEnd.
    case_match; [by apply Hkeep | done].
  - unfold emit. cbn [fst snd]. rewrite emit_Test. simpl.
    case_decide; subst; by rewrite ?lookup_insert_eq, ?lookup_insert_ne.
  - unfold emit. cbn [fst snd]. rewrite on_TestEnd.
    case_match; [by apply Hkeep | done].
  - run_handler. repeat case_match; simplify_eq/=; try done.
    rewrite alter_alter_eq. by apply Hkeep.
  - run_handler. repeat case_match; simplify_eq/=; try done; by apply Hkeep.
Qed.

Lemma last_outcome_snoc evs ev k :
  last_outcome (evs ++ [ev]) k = outcome_clock k (last_outcome evs k) ev.
Proof. unfold last_outcome. by rewrite fold_left_app. Qed.

Lemma run_last_outcome evs k l :
  Dict_lookup (_tests (self (run evs new_Aggregator))) k = Some l →
  terminalState <$> heap (run evs new_Aggregator) !! l
  = Some (last_outcome evs k).
Proof.
  revert l. induction evs as [|[now ev] evs IH] using rev_ind; intros l.
  { cbn. unfold Dict_lookup. by case_match. }
  rewrite last_outcome_snoc, run_snoc.
  destruct (run_records_separate_aux evs) as (T & _ & TT & _ & _).
  set (w := run evs new_Aggregator) in *.
  assert (∀ l, Dict_lookup (_tests (self w)) k = Some l →
               l ≠ fresh (dom (heap w))) as Hfresh.
  { intros l' [d Hd]%T ->. by rewrite fresh_record_absent in Hd. }
  rewrite emit_tests, emit_terminalState. unfold outcome_clock. cbn [fst snd].
  destruct ev; try (intros Hl; by apply IH).
  - (* 'suite' *)
    intros Hl. rewrite decide_False by by apply Hfresh. by apply IH.
  - (* 'test' *)
    destruct (String.eqb_spec uid0 k) as [->|Hne].
    + rewrite decide_True by done. intros [= <-]. by rewrite decide_True.
    + rewrite decide_False by done.
      intros Hl. rewrite decide_False by by apply Hfresh. by apply IH.
  - (* 'pass' *)
    intros Hl. destruct (String.eqb_spec uid0 k) as [->|Hne].
    + rewrite decide_True by done. specialize (IH l Hl).
      by destruct (heap w !! l).
    + rewrite decide_False; [by apply IH|].
      intros Hk0. by destruct Hne; eapply TT.
  - (* 'fail' *)
    intros Hl. destruct (String.eqb_spec uid0 k) as [->|Hne].
    + rewrite decide_True by done. specialize (IH l Hl).
      by destruct (heap w !! l).
    + rewrite decide_False; [by apply IH|].
      intros Hk0. by destruct Hne; eapply TT.
  - (* 'pending' *)
    intros Hl. destruct (String.eqb_spec uid0 k) as [->|Hne].
    + rewrite decide_True by done. specialize (IH l Hl).
      by destruct (heap w !! l).
    + rewrite decide_False; [by apply IH|].
      intros Hk0. by destruct Hne; eapply TT.
Qed.

(** X17.  After any sequence of events on a new Aggregator, the record the
    tests dictionary holds for uid [k] has the terminal state of the last
    'pass', 'fail' or 'pending' event for [k] that came after the 'test'
    event that constructed it, and null when none came: the last outcome
    wins, and outcome events for other tests do not count. *)
Theorem test_record_outcome (evs : list (Z * Event)) (k : string) (l : loc) (d : Data) :
  Dict_lookup (_tests (self (run evs new_Aggregator))) k = Some l →
  heap (run evs new_Aggregator) !! l = Some d →
  terminalState d = last_outcome evs k
  ∧ getIsSuccess d = strict_equals (last_outcome evs k) SUCCESS
  ∧ getIsError d = strict_equals (last_outcome evs k) ERROR
  ∧ getIsSkip d = strict_equals (last_outcome evs k) SKIP.
Proof.
  intros Hl Hd. pose proof (run_last_outcome evs k l Hl) as H.
  rewrite Hd in H. simpl in H. simplify_eq.
  unfold getIsSuccess, getIsError, getIsSkip. by rewrite H.
Qed.

Lemma test_record_outcome_witness :
  getIsError (with_terminalState (VString ERROR)
                (with_terminalState (VString SUCCESS) (new_Data (new_Date 1))))
  = true.
Proof.
  exact (proj1 (proj2 (proj2
    (test_record_outcome
       [(1, Test "t1"); (2, Pass "t2"); (3, Pass "t1"); (4, Fail "t1");
        (5, Test "t2"); (6, Pending "t2")]
       "t1" 1%positive
       (with_terminalState (VString ERROR)
          (with_terminalState (VString SUCCESS) (new_Data (new_Date 1))))
       ltac:(by vm_compute) ltac:(by vm_compute))))).
Defined.

Lemma on_HookStart w now hook :
  on now (HookStart hook) w
  = match owning_test hook with
    | None => (Return tt, w)
    | Some t =>
        match Dict_lookup (_tests (self w)) t with
        | Some l => addHookStart now l (uid hook) w
        | None => (Throw TypeError, w)
        end
    end.
Proof.
  cbv [on]. destruct (owning_test hook) as [t|]; [|done].
  cbv [bind tests_get get_world ret call throw].
  destruct (Dict_lookup (_tests (self w)) t) as [l|] eqn:Hk.
  - apply (Dict_get_IsData w) in Hk. by rewrite Hk.
  - pose proof (Dict_get_not_IsData w _ _ Hk) as Hn.
    destruct (Dict_get w (_tests (self w)) t); [by destruct (Hn l) | done..].
Qed.

Lemma on_HookEnd w now hook :
  on now (HookEnd hook) w
  = match owning_test hook with
    | None => (Return tt, w)
    | Some t =>
        match Dict_lookup (_tests (self w)) t with
        | Some l => addHookEnd now l (uid hook) w
        | None => (Throw TypeError, w)
        end
    end.
Proof.
  cbv [on]. destruct (owning_test hook) as [t|]; [|done].
  cbv [bind tests_get get_world ret call throw].
  destruct (Dict_lookup (_tests (self w)) t) as [l|] eqn:Hk.
  - apply (Dict_get_IsData w) in Hk. by rewrite Hk.
  - pose proof (Dict_get_not_IsData w _ _ Hk) as Hn.
    destruct (Dict_get w (_tests (self w)) t); [by destruct (Hn l) | done..].
Qed.

(** How each event moves the hook order of the records. *)
Lemma emit_hookOrder w now e l :
  hookOrder <$> heap (emit w (now, e)) !! l
  = match e with
    | Suite _ | Test _ =>
        if decide (l = fresh (dom (heap w))) then Some []
        else hookOrder <$> heap w !! l
    | HookStart hook =>
        match owning_test hook with
        | Some t =>
            if decide (Dict_lookup (_tests (self w)) t = Some l)
            then (λ d, hookOrder d ++ [uid hook]) <$> heap w !! l
            else hookOrder <$> heap w !! l
        | None => hookOrder <$> heap w !! l
        end
    | _ => hookOrder <$> heap w !! l
    end.
Proof.
  assert (∀ f l0, (∀ x, hookOrder (f x) = hookOrder x) →
            hookOrder <$> alter f l0 (heap w) !! l
            = hookOrder <$> heap w !! l) as Hkeep.
  { intros f l0 Hf. rewrite lookup_alter. case_decide; subst; [|done].
    destruct (heap w !! l); simpl; by rewrite ?Hf. }
  destruct e.
  - done.
  - done.
  - unfold emit. cbn [fst snd]. rewrite emit_Suite. simpl.
    case_decide; subst; by rewrite ?lookup_insert_eq, ?lookup_insert_ne.
  - unfold emit. cbn [fst snd]. rewrite on_SuiteEnd.
    case_match; [by apply Hkeep | done].
  - unfold emit. cbn [fst snd]. rewrite emit_Test. simpl.
    case_decide; subst; by rewrite ?lookup_insert_eq, ?lookup_insert_ne.
  - unfold emit. cbn [fst snd]. rewrite on_TestEnd.
    case_match; [by apply Hkeep | done].
  - unfold emit. cbn [fst snd]. rewrite on_HookStart.
    destruct (owning_test hook) as [t|]; [|done].
    destruct (Dict_lookup (_tests (self w)) t) as [l0|].
    + rewrite addHookStart_run. simpl. rewrite lookup_alter.
      repeat case_decide; simplify_eq; try done. by destruct (heap w !! l).
    + simpl. repeat case_decide; simplify_eq; done.
  - unfold emit. cbn [fst snd]. rewrite on_HookEnd.
    destruct (owning_test hook) as [t|]; [|done].
    destruct (Dict_lookup (_tests (self w)) t) as [l0|]; [|done].
    apply addHookEnd_hookOrder.
  - rewrite (emit_outcome_world w now (Pass uid0) uid0 (VString SUCCESS)) by auto.
    case_match; [by apply Hkeep | done].
  - rewrite (emit_outcome_world w now (Fail uid0) uid0 (VString ERROR)) by auto.
    case_match; [by apply Hkeep | done].
  - rewrite (emit_outcome_world w now (Pending uid0) uid0 (VString SKIP)) by auto.
    case_match; [by apply Hkeep | done].
Qed.

Lemma hooks_started_snoc evs ev k :
  hooks_started (evs ++ [ev]) k = hook_clock k (hooks_started evs k) ev.
Proof. unfold hooks_started. by rewrite fold_left_app. Qed.

Lemma run_hooks_started evs k l :
  Dict_lookup (_tests (self (run evs new_Aggregator))) k = Some l →
  hookOrder <$> heap (run evs new_Aggregator) !! l
  = Some (hooks_started evs k).
Proof.
  revert l. induction evs as [|[now ev] evs IH] using rev_ind; intros l.
  { cbn. unfold Dict_lookup. by case_match. }
  rewrite hooks_started_snoc, run_snoc.
  destruct (run_records_separate_aux evs) as (T & _ & TT & _ & _).
  set (w := run evs new_Aggregator) in *.
  assert (∀ l, Dict_lookup (_tests (self w)) k = Some l →
               l ≠ fresh (dom (heap w))) as Hfresh.
  { intros l' [d Hd]%T ->. by rewrite fresh_record_absent in Hd. }
  rewrite emit_tests, emit_hookOrder. unfold hook_clock. cbn [fst snd].
  destruct ev; try (intros Hl; by apply IH).
  - (* 'suite' *)
    intros Hl. rewrite decide_False by by apply Hfresh. by apply IH.
  - (* 'test' *)
    destruct (String.eqb_spec uid0 k) as [->|Hne].
    + rewrite decide_True by done. intros [= <-]. by rewrite decide_True.
    + rewrite decide_False by done.
      intros Hl. rewrite decide_False by by apply Hfresh. by apply IH.
  - (* 'hook' *)
    intros Hl. destruct (owning_test hook) as [t|]; [|by apply IH].
    destruct (String.eqb_spec t k) as [->|Hne].
    + rewrite decide_True by done. specialize (IH l Hl).
      destruct (heap w !! l); simpl in *; simplify_eq; congruence.
    + rewrite decide_False; [by apply IH|].
      intros Hk0. by destruct Hne; eapply TT.
Qed.

(** X18.  After any sequence of events on a new Aggregator, the hook order
    of the record the tests dictionary holds for uid [k] lists the uids of
    the 'hook' events whose owning test is [k], since the 'test' event
    that constructed the record, in the order of those events and with
    repetitions; 'hook end' events and hooks of other tests do not
    show. *)
Theorem test_record_hookOrder (evs : list (Z * Event)) (k : string) (l : loc) (d : Data) :
  Dict_lookup (_tests (self (run evs new_Aggregator))) k = Some l →
  heap (run evs new_Aggregator) !! l = Some d →
  hookOrder d = hooks_started evs k.
Proof.
  intros Hl Hd. pose proof (run_hooks_started evs k l Hl) as H.
  rewrite Hd in H. simpl in H. by simplify_eq.
Qed.

Lemma test_record_hookOrder_witness :
  hookOrder <$> heap (run [ (1, Test "t1"); (2, Test "t2");
                            (3, HookStart (mkHookPayload "h1" (Some "t1")));
                            (4, HookStart (mkHookPayload "h9" (Some "t2")));
                            (5, HookStart (mkHookPayload "h2" (Some "t1")));
                            (6, HookEnd (mkHookPayload "h2" (Some "t1")));
                            (7, HookEnd (mkHookPayload "h1" (Some "t1")));
                            (8, HookStart (mkHookPayload "h1" (Some "t1"))) ]
                          new_Aggregator) !! 1%positive
  = Some ["h1"; "h2"; "h1"].
Proof.
  set (evs := [ (1, Test "t1"); (2, Test "t2");
                (3, HookStart (mkHookPayload "h1" (Some "t1")));
                (4, HookStart (mkHookPayload "h9" (Some "t2")));
                (5, HookStart (mkHookPayload "h2" (Some "t1")));
                (6, HookEnd (mkHookPayload "h2" (Some "t1")));
                (7, HookEnd (mkHookPayload "h1" (Some "t1")));
                (8, HookStart (mkHookPayload "h1" (Some "t1"))) ]).
  assert (Dict_lookup (_tests (self (run evs new_Aggregator))) "t1"
          = Some 1%positive) as Hl by by vm_compute.
  destruct (heap (run evs new_Aggregator) !! 1%positive) as [d|] eqn:Hd.
  - simpl. f_equal. exact (test_record_hookOrder evs "t1" 1%positive d Hl Hd).
  - vm_compute in Hd. discriminate Hd.
Defined.
